(** * Blinken: a repeat-cycle timer for a 120V circuit

    A shallow embedding of the Arduino sketch [Blinken.ino] and the
    verification of its timing/mode state machine.

    The sketch is a single-threaded polling program.  Its inputs are the
    millisecond counter [millis()] and the level of the mode switch
    [digitalRead(modePin)]; its outputs are pin writes and serial text.
    The embedding threads the sketch's globals and function-local statics
    through a state-and-failure monad, reads inputs from an oracle indexed
    by the number of reads made so far, and appends every output to a trace.
    The [while] loops of the sketch are not bounded by the code (a switch
    held down blocks for ever), so each loop takes a fuel argument and the
    computation yields [None] when the fuel runs out. *)

From Stdlib Require Import ZArith List String Bool Lia.
Import ListNotations.
Local Open Scope Z_scope.

(* ================================================================== *)
(** ** Constants of the sketch and of the Arduino core *)

Definition onPeriod : Z := 30000.
Definition offPeriod : Z := 20000.
Definition debouncePeriod : Z := 50.
Definition blinkOnPeriod : Z := 1000.
Definition blinkOffPeriod : Z := 1000.
Definition millisOffset : Z := 0.

Definition controlPin : Z := 8.
Definition groundPin : Z := 7.
Definition modePin : Z := 11.
Definition indicatorPin : Z := 13.

(** Values of the Arduino core's macros. *)
Definition LOW : Z := 0.
Definition HIGH : Z := 1.
Definition OUTPUT : Z := 1.
Definition INPUT_PULLUP : Z := 2.

(** [unsigned long] is 32 bits wide on the Arduino; arithmetic wraps. *)
Definition ULONG_WIDTH : Z := 32.
Definition wrap (z : Z) : Z := z mod 2 ^ ULONG_WIDTH.
Arguments wrap : simpl never.

(* ================================================================== *)
(** ** Data model *)

Inductive Mode : Type := REPEAT | SCHEDULE | RUN.
Inductive IndicatorState : Type := OFF | BLINKING | ON.

Definition Mode_eqb (a b : Mode) : bool :=
  match a, b with
  | REPEAT, REPEAT | SCHEDULE, SCHEDULE | RUN, RUN => true
  | _, _ => false
  end.

Definition IndicatorState_eqb (a b : IndicatorState) : bool :=
  match a, b with
  | OFF, OFF | BLINKING, BLINKING | ON, ON => true
  | _, _ => false
  end.

(** Everything the sketch does to the outside world. *)
Inductive Event : Type :=
| PinMode (pin mode : Z)
| DigitalWrite (pin val : Z)
| SerialBegin (baud : Z)
| Delay (ms : Z)
| Print (s : string)
| Println (s : string)
| PrintNum (n : Z)
| PrintlnNum (n : Z).

(** The inputs: what the [n]-th call of [millis()] returns, and the level
    (true for HIGH) the [n]-th [digitalRead] of a pin sees. *)
Record Env : Type := mkEnv {
  millis_at : nat -> Z;
  pin_at : Z -> nat -> bool
}.

(** Globals, function-local statics, input cursors and the output trace
    (newest event first). *)
Record World : Type := mkWorld {
  currentMode : Mode;
  currentIndicatorState : IndicatorState;
  currentPowerState : Z;
  lastSeenMode : option Mode;     (* static of run_half_cycle; None before its first call *)
  indicatorState : Z;             (* statics of update_indicator *)
  blinking : bool;
  blinkStart : Z;
  blinkEnd : Z;
  millisReads : nat;
  pinReads : nat;
  trace : list Event
}.

(** The state the C++ runtime establishes before [setup()] runs. *)
Definition initial_world : World :=
  {| currentMode := SCHEDULE;
     currentIndicatorState := BLINKING;
     currentPowerState := LOW;
     lastSeenMode := None;
     indicatorState := LOW;
     blinking := false;
     blinkStart := 0;
     blinkEnd := 0;
     millisReads := 0%nat;
     pinReads := 0%nat;
     trace := [] |}.

Definition with_currentMode (m : Mode) (w : World) : World :=
  mkWorld m (currentIndicatorState w) (currentPowerState w) (lastSeenMode w)
    (indicatorState w) (blinking w) (blinkStart w) (blinkEnd w)
    (millisReads w) (pinReads w) (trace w).

Definition with_currentIndicatorState (i : IndicatorState) (w : World) : World :=
  mkWorld (currentMode w) i (currentPowerState w) (lastSeenMode w)
    (indicatorState w) (blinking w) (blinkStart w) (blinkEnd w)
    (millisReads w) (pinReads w) (trace w).

Definition with_currentPowerState (p : Z) (w : World) : World :=
  mkWorld (currentMode w) (currentIndicatorState w) p (lastSeenMode w)
    (indicatorState w) (blinking w) (blinkStart w) (blinkEnd w)
    (millisReads w) (pinReads w) (trace w).

Definition with_lastSeenMode (l : option Mode) (w : World) : World :=
  mkWorld (currentMode w) (currentIndicatorState w) (currentPowerState w) l
    (indicatorState w) (blinking w) (blinkStart w) (blinkEnd w)
    (millisReads w) (pinReads w) (trace w).

Definition with_indicatorState (v : Z) (w : World) : World :=
  mkWorld (currentMode w) (currentIndicatorState w) (currentPowerState w)
    (lastSeenMode w) v (blinking w) (blinkStart w) (blinkEnd w)
    (millisReads w) (pinReads w) (trace w).

Definition with_blinking (b : bool) (w : World) : World :=
  mkWorld (currentMode w) (currentIndicatorState w) (currentPowerState w)
    (lastSeenMode w) (indicatorState w) b (blinkStart w) (blinkEnd w)
    (millisReads w) (pinReads w) (trace w).

Definition with_blinkStart (t : Z) (w : World) : World :=
  mkWorld (currentMode w) (currentIndicatorState w) (currentPowerState w)
    (lastSeenMode w) (indicatorState w) (blinking w) t (blinkEnd w)
    (millisReads w) (pinReads w) (trace w).

Definition with_blinkEnd (t : Z) (w : World) : World :=
  mkWorld (currentMode w) (currentIndicatorState w) (currentPowerState w)
    (lastSeenMode w) (indicatorState w) (blinking w) (blinkStart w) t
    (millisReads w) (pinReads w) (trace w).

Definition with_millisReads (n : nat) (w : World) : World :=
  mkWorld (currentMode w) (currentIndicatorState w) (currentPowerState w)
    (lastSeenMode w) (indicatorState w) (blinking w) (blinkStart w) (blinkEnd w)
    n (pinReads w) (trace w).

Definition with_pinReads (n : nat) (w : World) : World :=
  mkWorld (currentMode w) (currentIndicatorState w) (currentPowerState w)
    (lastSeenMode w) (indicatorState w) (blinking w) (blinkStart w) (blinkEnd w)
    (millisReads w) n (trace w).

Definition with_trace (t : list Event) (w : World) : World :=
  mkWorld (currentMode w) (currentIndicatorState w) (currentPowerState w)
    (lastSeenMode w) (indicatorState w) (blinking w) (blinkStart w) (blinkEnd w)
    (millisReads w) (pinReads w) t.

(* ================================================================== *)
(** ** The monad of sketch computations *)

Definition prog (A : Type) : Type := Env -> World -> option (A * World).

Definition ret {A : Type} (a : A) : prog A := fun _ w => Some (a, w).

Definition bind {A B : Type} (p : prog A) (k : A -> prog B) : prog B :=
  fun env w =>
    match p env w with
    | Some (a, w') => k a env w'
    | None => None
    end.

(** A loop that has used up its fuel. *)
Definition out_of_fuel {A : Type} : prog A := fun _ _ => None.

Declare Scope prog_scope.
Delimit Scope prog_scope with prog.
Notation "x <- p ;; k" := (bind p (fun x => k))
  (at level 61, p at next level, right associativity) : prog_scope.
Notation "p ;; k" := (bind p (fun _ => k))
  (at level 61, right associativity) : prog_scope.
Local Open Scope prog_scope.

Definition gets {A : Type} (f : World -> A) : prog A :=
  fun _ w => Some (f w, w).

Definition modify (f : World -> World) : prog unit :=
  fun _ w => Some (tt, f w).

Definition emit (e : Event) : prog unit :=
  modify (fun w => with_trace (e :: trace w) w).

(** *** Primitives of the Arduino core *)

Definition millis : prog Z :=
  fun env w =>
    Some (wrap (millis_at env (millisReads w)),
          with_millisReads (S (millisReads w)) w).

Definition digitalRead (pin : Z) : prog Z :=
  fun env w =>
    Some (if pin_at env pin (pinReads w) then HIGH else LOW,
          with_pinReads (S (pinReads w)) w).

Definition digitalWrite (pin val : Z) : prog unit := emit (DigitalWrite pin val).
Definition pinMode (pin mode : Z) : prog unit := emit (PinMode pin mode).
Definition delay (ms : Z) : prog unit := emit (Delay ms).
Definition Serial_begin (baud : Z) : prog unit := emit (SerialBegin baud).
Definition Serial_print (s : string) : prog unit := emit (Print s).
Definition Serial_println (s : string) : prog unit := emit (Println s).
Definition Serial_print_num (n : Z) : prog unit := emit (PrintNum n).
Definition Serial_println_num (n : Z) : prog unit := emit (PrintlnNum n).

(* ================================================================== *)
(** ** The sketch *)

(** [my_millis]: the clock, shifted by the debugging offset. *)
Definition my_millis : prog Z :=
  t <- millis ;;
  ret (wrap (t + millisOffset)).

(** [next_switch_time]: when the power state is next changed. *)
Definition next_switch_time (currTime holdTime : Z) : prog Z :=
  let nextSwitch := wrap (currTime + holdTime) in
  Serial_print "Time when power state is next changed: " ;;
  Serial_println_num nextSwitch ;;
  ret nextSwitch.

(** [time_surpassed]: has the clock passed [targetTime], given that the
    wait started at [originalTime]? *)
Definition time_surpassed (targetTime originalTime : Z) : prog bool :=
  currTime <- my_millis ;;
  if (targetTime <? originalTime) && (currTime >? originalTime)
  then ret false
  else ret (currTime >? targetTime).

(** [increment_mode]: rotate the mode. *)
Definition increment_mode : prog unit :=
  m <- gets currentMode ;;
  match m with
  | REPEAT => modify (with_currentMode SCHEDULE)
  | SCHEDULE => modify (with_currentMode RUN)
  | RUN => modify (with_currentMode REPEAT)
  end.

(** [mode_to_string]. *)
Definition mode_to_string : prog string :=
  m <- gets currentMode ;;
  match m with
  | REPEAT => ret "REPEAT"%string
  | SCHEDULE => ret "SCHEDULE"%string
  | RUN => ret "RUNNING"%string
  end.

(** [update_indicator]: reflect the mode on the LED, or blink it. *)
Definition update_indicator (modeChange : bool) : prog unit :=
  (if modeChange then
     m <- gets currentMode ;;
     match m with
     | REPEAT =>
         modify (with_indicatorState LOW) ;;
         modify (with_blinking false)
     | SCHEDULE =>
         modify (with_blinking true) ;;
         t <- my_millis ;;
         modify (with_blinkStart t) ;;
         modify (with_blinkEnd (wrap (t + blinkOnPeriod))) ;;
         modify (with_indicatorState HIGH)
     | RUN =>
         modify (with_indicatorState HIGH) ;;
         modify (with_blinking false)
     end
   else ret tt) ;;
  bl <- gets blinking ;;
  elapsed <- (if bl then
                be <- gets blinkEnd ;;
                bs <- gets blinkStart ;;
                time_surpassed be bs
              else ret false) ;;
  changeIndicatorState <-
    (if elapsed then
       t <- my_millis ;;
       modify (with_blinkStart t) ;;
       st <- gets indicatorState ;;
       (if st =? HIGH then
          modify (with_blinkEnd (wrap (t + blinkOffPeriod))) ;;
          modify (with_indicatorState LOW)
        else
          modify (with_blinkEnd (wrap (t + blinkOnPeriod))) ;;
          modify (with_indicatorState HIGH)) ;;
       ret true
     else ret modeChange) ;;
  if changeIndicatorState then
    st <- gets indicatorState ;;
    digitalWrite indicatorPin st
  else ret tt.

(** [match_indicator_to_mode]: set the indicator state the mode calls for. *)
Definition match_indicator_to_mode : prog unit :=
  lastSeenState <- gets currentIndicatorState ;;
  m <- gets currentMode ;;
  match m with
  | REPEAT => modify (with_currentIndicatorState OFF)
  | SCHEDULE => modify (with_currentIndicatorState BLINKING)
  | RUN => modify (with_currentIndicatorState ON)
  end ;;
  now_ <- gets currentIndicatorState ;;
  update_indicator (negb (IndicatorState_eqb lastSeenState now_)).

(** [request_power_state]: decide whether to apply the requested state;
    the result says whether the request was carried out. *)
Definition request_power_state (requestedState : Z) : prog bool :=
  Serial_print "DEBUG: Requested Power State " ;;
  Serial_println_num requestedState ;;
  m <- gets currentMode ;;
  let '(newState, requestHonored) :=
    match m with
    | REPEAT => (requestedState, true)
    | SCHEDULE => (requestedState, true)
    | RUN => (HIGH, requestedState =? HIGH)
    end in
  cur <- gets currentPowerState ;;
  (if negb (newState =? cur) then
     modify (with_currentPowerState newState) ;;
     p <- gets currentPowerState ;;
     digitalWrite controlPin p ;;
     Serial_print "DEBUG: Power State Changed, Time=" ;;
     t <- my_millis ;;
     Serial_println_num t
   else ret tt) ;;
  (if requestHonored then
     Serial_print "DEBUG: Request Honored, Time=" ;;
     t <- my_millis ;;
     Serial_println_num t
   else ret tt) ;;
  ret requestHonored.

(** The first [while] of [mode_change_check]: wait for the switch to go
    HIGH again.  The result is the pair of locals [(val, lastVal)]. *)
Fixpoint wait_release (fuel : nat) (val lastVal : Z) : prog (Z * Z) :=
  if val =? LOW then
    match fuel with
    | O => out_of_fuel
    | S fuel' =>
        v <- digitalRead modePin ;;
        update_indicator false ;;
        wait_release fuel' v v
    end
  else ret (val, lastVal).

(** The second [while] of [mode_change_check]: wait out the debounce
    period.  The result is the pair of locals
    [(initialTime, fullyDebouncedTime)] at loop exit. *)
Fixpoint debounce_wait (fuel : nat) (lastVal initialTime fullyDebouncedTime : Z)
  : prog (Z * Z) :=
  done <- time_surpassed fullyDebouncedTime initialTime ;;
  if done then ret (initialTime, fullyDebouncedTime)
  else
    match fuel with
    | O => out_of_fuel
    | S fuel' =>
        val <- digitalRead modePin ;;
        restart <- (if negb (val =? lastVal) then
                      t <- my_millis ;;
                      ret (t, wrap (t + debouncePeriod))
                    else ret (initialTime, fullyDebouncedTime)) ;;
        update_indicator false ;;
        debounce_wait fuel' lastVal (fst restart) (snd restart)
    end.

(** The statements of [mode_change_check] from the mode change to the
    start of the debounce period: advance the mode, wait for the switch to
    go HIGH, take the time.  The result is the triple of locals
    [(lastVal, initialTime, fullyDebouncedTime)]. *)
Definition await_release (fuel : nat) (val : Z) : prog (Z * Z * Z) :=
  increment_mode ;;
  match_indicator_to_mode ;;
  Serial_print "Mode Change: " ;;
  s <- mode_to_string ;;
  Serial_println s ;;
  Serial_print "DEBUG: Switch LOW state detected=" ;;
  t0 <- my_millis ;;
  Serial_println_num t0 ;;
  released <- wait_release fuel val val ;;
  Serial_print "DEBUG: Switch back in HIGH state" ;;
  t1 <- my_millis ;;
  Serial_println_num t1 ;;
  initialTime <- my_millis ;;
  let fullyDebouncedTime := wrap (initialTime + debouncePeriod) in
  Serial_print "DEBUG: Initial Debounce Time=" ;;
  Serial_print_num initialTime ;;
  Serial_print "    Target Debounce Time=" ;;
  Serial_println_num fullyDebouncedTime ;;
  ret (snd released, initialTime, fullyDebouncedTime).

(** [mode_change_check]: a pressed switch advances the mode; then the
    switch is debounced. *)
Definition mode_change_check (fuel : nat) : prog unit :=
  val <- digitalRead modePin ;;
  if val =? LOW then
    locals <- await_release fuel val ;;
    debounce_wait fuel (fst (fst locals)) (snd (fst locals)) (snd locals) ;;
    Serial_print "DEBUG: Finished Debounce at " ;;
    t2 <- my_millis ;;
    Serial_println_num t2
  else ret tt.

(** The value of the static [lastSeenMode]; its initialiser, which runs
    when control first passes its declaration, is [currentMode]. *)
Definition get_lastSeenMode : prog Mode :=
  l <- gets lastSeenMode ;;
  match l with
  | Some m => ret m
  | None => gets currentMode
  end.

Definition init_lastSeenMode : prog unit :=
  l <- gets lastSeenMode ;;
  match l with
  | Some _ => ret tt
  | None => m <- gets currentMode ;; modify (with_lastSeenMode (Some m))
  end.

(** The first two statements of the body of the [while] of
    [run_half_cycle]: service the indicator, remember the mode. *)
Definition poll_indicator : prog unit :=
  m <- gets currentMode ;;
  l <- get_lastSeenMode ;;
  update_indicator (negb (Mode_eqb m l)) ;;
  m1 <- gets currentMode ;;
  modify (with_lastSeenMode (Some m1)).

(** The [if] that ends the body: true when it leaves the function through
    its [return false]. *)
Definition bail_on_mode_change : prog bool :=
  m2 <- gets currentMode ;;
  l2 <- get_lastSeenMode ;;
  if negb (Mode_eqb m2 l2) then
    modify (with_lastSeenMode (Some m2)) ;;
    Serial_print "DEBUG: Bailing on cycle because mode has changed, Time=" ;;
    t <- my_millis ;;
    Serial_println_num t ;;
    ret true
  else ret false.

(** The body of the [while] of [run_half_cycle]. *)
Definition half_cycle_body (fuel : nat) : prog bool :=
  poll_indicator ;;
  mode_change_check fuel ;;
  bail_on_mode_change.

(** The [while] of [run_half_cycle]. *)
Fixpoint half_cycle_loop (fuel : nat) (nextPowerStateChange initialTime : Z)
  : prog bool :=
  done <- time_surpassed nextPowerStateChange initialTime ;;
  if done then ret true
  else
    match fuel with
    | O => out_of_fuel
    | S fuel' =>
        bail <- half_cycle_body fuel' ;;
        if bail then ret false
        else half_cycle_loop fuel' nextPowerStateChange initialTime
    end.

(** The statements of [run_half_cycle] before its [while]; the result is
    the pair of locals [(nextPowerStateChange, initialTime)]. *)
Definition half_cycle_begin (period : Z) : prog (Z * Z) :=
  init_lastSeenMode ;;
  initialTime <- my_millis ;;
  Serial_print "DEBUG: Running Half Cycle for next " ;;
  Serial_print_num period ;;
  Serial_println "ms" ;;
  nextPowerStateChange <- next_switch_time initialTime period ;;
  ret (nextPowerStateChange, initialTime).

(** [run_half_cycle]: run the on or off part of the cycle; the result says
    whether it completed (true) or was cut short by a mode change. *)
Definition run_half_cycle (fuel : nat) (period : Z) : prog bool :=
  locals <- half_cycle_begin period ;;
  half_cycle_loop fuel (fst locals) (snd locals).

(** The first [if] of [loop]: ask for power and announce the ON cycle. *)
Definition on_phase_begin : prog unit :=
  honored <- request_power_state HIGH ;;
  if honored then
    Serial_print "Starting On Cycle for " ;;
    Serial_print_num (wrap (onPeriod / 1000)) ;;
    Serial_println " seconds"
  else ret tt.

(** The ON half of [loop]: its first [if] and its first [run_half_cycle]. *)
Definition on_phase (fuel : nat) : prog bool :=
  on_phase_begin ;;
  run_half_cycle fuel onPeriod.

(** The OFF half of [loop]: the body of its second [if]. *)
Definition off_phase (fuel : nat) : prog unit :=
  honored <- request_power_state LOW ;;
  (if honored then
     Serial_print "Starting Off Cycle for " ;;
     Serial_print_num (wrap (offPeriod / 1000)) ;;
     Serial_println " seconds"
   else ret tt) ;;
  run_half_cycle fuel offPeriod ;;
  ret tt.

(** [loop]. *)
Definition loop (fuel : nat) : prog unit :=
  completed <- on_phase fuel ;;
  m <- gets currentMode ;;
  if completed && negb (Mode_eqb m RUN) then off_phase fuel else ret tt.

(** [setup]. *)
Definition setup : prog unit :=
  pinMode controlPin OUTPUT ;;
  pinMode groundPin OUTPUT ;;
  pinMode indicatorPin OUTPUT ;;
  pinMode modePin INPUT_PULLUP ;;
  digitalWrite groundPin LOW ;;
  Serial_begin 57600 ;;
  delay 5000 ;;
  update_indicator true.

(** The Arduino core's [main]: [setup()] once, then [loop()] again and
    again; [n] counts the calls of [loop()]. *)
Fixpoint loops (n fuel : nat) : prog unit :=
  match n with
  | O => ret tt
  | S n' => loop fuel ;; loops n' fuel
  end.

Definition arduino_main (n fuel : nat) : prog unit :=
  setup ;; loops n fuel.

(* ================================================================== *)
(** ** Specification-side notions *)

(** The static correspondence of the specification between modes and
    indicator states: Repeat to Off, Schedule to Blinking, Run to On. *)
Definition spec_indicator_of_mode (m : Mode) : IndicatorState :=
  match m with
  | REPEAT => OFF
  | SCHEDULE => BLINKING
  | RUN => ON
  end.

(** The cyclic ordering of the specification:
    Repeat, then Schedule, then Run, then Repeat again. *)
Definition spec_successor (m : Mode) : Mode :=
  match m with
  | REPEAT => SCHEDULE
  | SCHEDULE => RUN
  | RUN => REPEAT
  end.

(** Ticks elapsed from [origin] to [now] on the wrapping counter. *)
Definition spec_elapsed (origin now : Z) : Z := wrap (now - origin).

(** [now] lies in the interval from [origin] (included) to [origin + d]
    (excluded), wraparound accounted for. *)
Definition spec_waiting (origin d now : Z) : bool := spec_elapsed origin now <? d.

(** [now] has passed [origin + d], wraparound accounted for. *)
Definition spec_passed (origin d now : Z) : bool := spec_elapsed origin now >? d.

(** The indicator state agrees with the mode. *)
Definition indicator_matches (w : World) : Prop :=
  currentIndicatorState w = spec_indicator_of_mode (currentMode w).

(* ================================================================== *)
(** ** Observations and relations used in the statements *)

(** The pin writes of a trace, newest first, as pairs of pin and value. *)
Fixpoint pin_writes (tr : list Event) : list (Z * Z) :=
  match tr with
  | [] => []
  | DigitalWrite pin val :: tr' => (pin, val) :: pin_writes tr'
  | _ :: tr' => pin_writes tr'
  end.

(** The numbers a trace has sent to the serial line, oldest first. *)
Definition printed_numbers (tr : list Event) : list Z :=
  flat_map (fun e => match e with
                     | PrintNum n | PrintlnNum n => [n]
                     | _ => []
                     end) (rev tr).

(** The clock reading [my_millis] returns next in world [w]. *)
Definition now_at (env : Env) (w : World) : Z :=
  wrap (millis_at env (millisReads w)).

(** A field of the world is left as it was. *)
Definition keeps {A : Type} (f : World -> A) (w w' : World) : Prop := f w' = f w.

(** The globals other than the statics of [update_indicator], and the
    switch cursor, are left as they were. *)
Definition same_control (w w' : World) : Prop :=
  currentMode w' = currentMode w /\
  currentIndicatorState w' = currentIndicatorState w /\
  currentPowerState w' = currentPowerState w /\
  lastSeenMode w' = lastSeenMode w /\
  pinReads w' = pinReads w.

(** The invariant [indicator_matches] is kept. *)
Definition keeps_indicator_matches (w w' : World) : Prop :=
  indicator_matches w -> indicator_matches w'.

(** Every terminating run of [p] relates the world before to the world after. *)
Definition preserves {A : Type} (R : World -> World -> Prop) (p : prog A) : Prop :=
  forall env w a w', p env w = Some (a, w') -> R w w'.

(** A relation between worlds that holds from a world to itself, composes,
    and is indifferent to the input cursors, the trace and the statics of
    [update_indicator]. *)
Record frame_rel (R : World -> World -> Prop) : Prop := mk_frame_rel {
  fr_refl : forall w, R w w;
  fr_trans : forall w1 w2 w3, R w1 w2 -> R w2 w3 -> R w1 w3;
  fr_millisReads : forall n w, R w (with_millisReads n w);
  fr_pinReads : forall n w, R w (with_pinReads n w);
  fr_trace : forall t w, R w (with_trace t w);
  fr_indicatorState : forall v w, R w (with_indicatorState v w);
  fr_blinking : forall b w, R w (with_blinking b w);
  fr_blinkStart : forall t w, R w (with_blinkStart t w);
  fr_blinkEnd : forall t w, R w (with_blinkEnd t w)
}.

(** A result obtained with some fuel is obtained with any larger fuel. *)
Definition fuel_mono {A : Type} (p : nat -> prog A) : Prop :=
  forall f f' env w r, p f env w = Some r -> (f <= f')%nat -> p f' env w = Some r.

(** The world in which [run_half_cycle] returns false, given the world
    [w] in which [mode_change_check] has returned with a new mode. *)
Definition bailed (env : Env) (w : World) : World :=
  with_millisReads (S (millisReads w))
    (with_trace
       (PrintlnNum (now_at env w)
        :: Print "DEBUG: Bailing on cycle because mode has changed, Time="
        :: trace w)
       (with_lastSeenMode (Some (currentMode w)) w)).


(* ================================================================== *)
(** ** Scenarios: concrete inputs and the worlds they lead to *)

(** A clock that stands at [t] and a switch that is never pressed. *)
Definition env_clock_at (t : Z) : Env := mkEnv (fun _ => t) (fun _ _ => true).

(** A clock that advances one tick per reading; the switch is pressed at
    the first poll only. *)
Definition env_press_at_first_poll : Env :=
  mkEnv (fun n => Z.of_nat n) (fun _ n => negb (Nat.eqb n 0)).

(** The world when [setup()] has returned under that clock. *)
Definition world_booted : World :=
  Eval vm_compute in
    match setup env_press_at_first_poll initial_world with
    | Some (_, w) => w
    | None => initial_world
    end.

(** A coarse clock, nine seconds per reading, under which each half cycle
    lasts one poll; the switch is pressed at the second poll, which is the
    poll of the first off-phase. *)
Definition env_press_in_off_phase : Env :=
  mkEnv (fun n => 100 + 9000 * Z.of_nat n) (fun _ n => negb (Nat.eqb n 1)).

(** The world when the first [loop()] has returned under that input. *)
Definition world_run_low : World :=
  Eval vm_compute in
    match arduino_main 1 2 env_press_in_off_phase initial_world with
    | Some (_, w) => w
    | None => initial_world
    end.

(** A clock that advances one tick per reading; the switch is up at the
    first two polls, pressed at the third, and up again from then on. *)
Definition env_press_at_third_poll : Env :=
  mkEnv (fun n => Z.of_nat n) (fun _ n => negb (Nat.eqb n 2)).





(** A switch that bounces after its release: down at the first reading
    (the press), up at the second (the release), down at the third (a
    bounce inside the guard window), up at the fourth, down at the fifth,
    up from then on.  The clock readings are listed in the order in which
    the sketch asks for them; the first two are those of [setup()]. *)
Definition env_bounce : Env :=
  mkEnv (fun n => nth n [0; 1; 900; 950; 960; 970; 1000; 1040; 1051; 1052;
                         1060; 1061; 1062; 1070; 1120; 1121] 1200)
        (fun _ n => negb (Nat.eqb n 0 || Nat.eqb n 2 || Nat.eqb n 4)).

(** The world in which the guard window of the first press opens, and the
    world in which its [while] is left. *)
Definition world_guard_begins : World :=
  Eval vm_compute in
    match (digitalRead modePin ;; await_release 1 LOW) env_bounce world_booted with
    | Some (_, w) => w
    | None => initial_world
    end.

Definition world_guard_ends : World :=
  Eval vm_compute in
    match debounce_wait 2 HIGH 960 1010 env_bounce world_guard_begins with
    | Some (_, w) => w
    | None => initial_world
    end.

(** A switch that is held down for ever, under a clock that advances one
    tick per reading. *)
Definition env_switch_stuck : Env :=
  mkEnv (fun n => Z.of_nat n) (fun _ _ => false).

(** A single clean press: the switch is down at the first reading only;
    the clock advances ten ticks per reading and stops at tick 1000000. *)
Definition env_clean_press : Env :=
  mkEnv (fun n => Z.min (10 * Z.of_nat n) 1000000)
        (fun _ n => negb (Nat.eqb n 0)).

(** The level last written to [pin] in a trace, if the pin was written. *)
Fixpoint last_write (pin : Z) (tr : list Event) : option Z :=
  match tr with
  | [] => None
  | DigitalWrite p v :: tr' => if p =? pin then Some v else last_write pin tr'
  | _ :: tr' => last_write pin tr'
  end.

(** The LED shows the mode: the level last written to the indicator pin is
    the one [update_indicator] remembers; it is LOW and steady in REPEAT,
    HIGH and steady in RUN, and blinking between the two in SCHEDULE. *)
Definition led_shows_mode (w : World) : Prop :=
  last_write indicatorPin (trace w) = Some (indicatorState w) /\
  match currentMode w with
  | REPEAT => indicatorState w = LOW /\ blinking w = false
  | SCHEDULE =>
      blinking w = true /\ (indicatorState w = LOW \/ indicatorState w = HIGH)
  | RUN => indicatorState w = HIGH /\ blinking w = false
  end.

(** The control pin carries the power state: the level last written to it
    is [currentPowerState]; before its first write the state is LOW. *)
Definition control_pin_follows (w : World) : Prop :=
  match last_write controlPin (trace w) with
  | Some v => v = currentPowerState w
  | None => currentPowerState w = LOW
  end.

(** The static [lastSeenMode], once initialised, is the current mode. *)
Definition seen_mode_current (w : World) : Prop :=
  match lastSeenMode w with
  | Some m => m = currentMode w
  | None => True
  end.

(** Every terminating run of [p] from a world in [I] ends in [I]. *)
Definition maintains {A : Type} (I : World -> Prop) (p : prog A) : Prop :=
  forall env w a w', I w -> p env w = Some (a, w') -> I w'.

(** Every terminating run of [p] from a world in [P] ends in [Q]. *)
Definition leads {A : Type} (P Q : World -> Prop) (p : prog A) : Prop :=
  forall env w a w', P w -> p env w = Some (a, w') -> Q w'.

(** The indicator is in line with the mode: the indicator state is the
    image of the mode, and the LED shows it. *)
Definition indicator_in_line (w : World) : Prop :=
  indicator_matches w /\ led_shows_mode w.
(** A switch that is never pressed, under a clock that advances ten
    seconds per reading and stops at tick 1000000. *)
Definition env_idle : Env :=
  mkEnv (fun n => Z.min (10000 * Z.of_nat n) 1000000) (fun _ _ => true).
(** The world when a first [loop()], a full cycle, has returned from
    [world_booted] with the switch never pressed. *)
Definition world_cycle_done : World :=
  Eval vm_compute in
    match loop 30 env_idle world_booted with
    | Some (_, w) => w
    | None => initial_world
    end.
(* ================================================================== *)
(** ** The sketch with debugging-aware printing *)

(** The later version of the sketch: the mode switch is on pin 12, and
    every line of the log goes through [my_print], which drops the
    debugging lines unless [printDebug] is set.  The functions that print
    nothing and do not read the switch, [my_millis], [time_surpassed],
    [increment_mode], [mode_to_string], [update_indicator] and
    [match_indicator_to_mode], are those of the first version, and so are
    the pieces of [run_half_cycle] that handle its static. *)
Module Part000.

Definition printDebug : bool := false.
Definition modePin : Z := 12.

(** [my_print] for strings. *)
Definition my_print (str : string) (nl debug : bool) : prog unit :=
  if negb debug || printDebug then
    if nl then Serial_println str else Serial_print str
  else ret tt.

(** [my_print] for unsigned numbers. *)
Definition my_print_ulong (val : Z) (nl debug : bool) : prog unit :=
  if negb debug || printDebug then
    if nl then Serial_println_num val else Serial_print_num val
  else ret tt.

Definition next_switch_time (currTime holdTime : Z) : prog Z :=
  let nextSwitch := wrap (currTime + holdTime) in
  my_print "Time when power state is next changed: " false false ;;
  my_print_ulong nextSwitch true false ;;
  ret nextSwitch.

Definition request_power_state (requestedState : Z) : prog bool :=
  my_print "DEBUG: Requested Power State " false true ;;
  my_print_ulong (wrap requestedState) true true ;;
  m <- gets currentMode ;;
  let '(newState, requestHonored) :=
    match m with
    | REPEAT => (requestedState, true)
    | SCHEDULE => (requestedState, true)
    | RUN => (HIGH, requestedState =? HIGH)
    end in
  cur <- gets currentPowerState ;;
  (if negb (newState =? cur) then
     modify (with_currentPowerState newState) ;;
     p <- gets currentPowerState ;;
     digitalWrite controlPin p ;;
     my_print "DEBUG: Power State Changed, Time=" false true ;;
     t <- my_millis ;;
     my_print_ulong t true true
   else ret tt) ;;
  (if requestHonored then
     my_print "DEBUG: Request Honored, Time=" false true ;;
     t <- my_millis ;;
     my_print_ulong t true true
   else ret tt) ;;
  ret requestHonored.

Fixpoint wait_release (fuel : nat) (val lastVal : Z) : prog (Z * Z) :=
  if val =? LOW then
    match fuel with
    | O => out_of_fuel
    | S fuel' =>
        v <- digitalRead modePin ;;
        update_indicator false ;;
        wait_release fuel' v v
    end
  else ret (val, lastVal).

Fixpoint debounce_wait (fuel : nat) (lastVal initialTime fullyDebouncedTime : Z)
  : prog (Z * Z) :=
  done <- time_surpassed fullyDebouncedTime initialTime ;;
  if done then ret (initialTime, fullyDebouncedTime)
  else
    match fuel with
    | O => out_of_fuel
    | S fuel' =>
        val <- digitalRead modePin ;;
        restart <- (if negb (val =? lastVal) then
                      t <- my_millis ;;
                      ret (t, wrap (t + debouncePeriod))
                    else ret (initialTime, fullyDebouncedTime)) ;;
        update_indicator false ;;
        debounce_wait fuel' lastVal (fst restart) (snd restart)
    end.

Definition await_release (fuel : nat) (val : Z) : prog (Z * Z * Z) :=
  increment_mode ;;
  match_indicator_to_mode ;;
  my_print "Mode Change: " false false ;;
  s <- mode_to_string ;;
  my_print s true false ;;
  my_print "DEBUG: Switch LOW state detected=" false true ;;
  t0 <- my_millis ;;
  my_print_ulong t0 true true ;;
  released <- wait_release fuel val val ;;
  my_print "DEBUG: Switch back in HIGH state=" false true ;;
  t1 <- my_millis ;;
  my_print_ulong t1 true true ;;
  initialTime <- my_millis ;;
  let fullyDebouncedTime := wrap (initialTime + debouncePeriod) in
  my_print "DEBUG: Initial Debounce Time=" false true ;;
  my_print_ulong initialTime false true ;;
  my_print "    Target Debounce Time=" false true ;;
  my_print_ulong fullyDebouncedTime true true ;;
  ret (snd released, initialTime, fullyDebouncedTime).

Definition mode_change_check (fuel : nat) : prog unit :=
  val <- digitalRead modePin ;;
  if val =? LOW then
    locals <- await_release fuel val ;;
    debounce_wait fuel (fst (fst locals)) (snd (fst locals)) (snd locals) ;;
    my_print "DEBUG: Finished Debounce at " false true ;;
    t2 <- my_millis ;;
    my_print_ulong t2 true true
  else ret tt.

Definition bail_on_mode_change : prog bool :=
  m2 <- gets currentMode ;;
  l2 <- get_lastSeenMode ;;
  if negb (Mode_eqb m2 l2) then
    modify (with_lastSeenMode (Some m2)) ;;
    my_print "DEBUG: Bailing on cycle because mode has changed, Time="
      false true ;;
    t <- my_millis ;;
    my_print_ulong t true true ;;
    ret true
  else ret false.

Definition half_cycle_body (fuel : nat) : prog bool :=
  poll_indicator ;;
  mode_change_check fuel ;;
  bail_on_mode_change.

Fixpoint half_cycle_loop (fuel : nat) (nextPowerStateChange initialTime : Z)
  : prog bool :=
  done <- time_surpassed nextPowerStateChange initialTime ;;
  if done then ret true
  else
    match fuel with
    | O => out_of_fuel
    | S fuel' =>
        bail <- half_cycle_body fuel' ;;
        if bail then ret false
        else half_cycle_loop fuel' nextPowerStateChange initialTime
    end.

Definition half_cycle_begin (period : Z) : prog (Z * Z) :=
  init_lastSeenMode ;;
  initialTime <- my_millis ;;
  my_print "DEBUG: Running Half Cycle for next " false true ;;
  my_print_ulong period false true ;;
  my_print "ms" true true ;;
  nextPowerStateChange <- next_switch_time initialTime period ;;
  ret (nextPowerStateChange, initialTime).

Definition run_half_cycle (fuel : nat) (period : Z) : prog bool :=
  locals <- half_cycle_begin period ;;
  half_cycle_loop fuel (fst locals) (snd locals).

Definition on_phase_begin : prog unit :=
  honored <- request_power_state HIGH ;;
  if honored then
    my_print "Starting On Cycle for " false false ;;
    my_print_ulong (wrap (onPeriod / 1000)) false false ;;
    my_print " seconds" true false
  else ret tt.

Definition on_phase (fuel : nat) : prog bool :=
  on_phase_begin ;;
  run_half_cycle fuel onPeriod.

Definition off_phase (fuel : nat) : prog unit :=
  honored <- request_power_state LOW ;;
  (if honored then
     my_print "Starting Off Cycle for " false false ;;
     my_print_ulong (wrap (offPeriod / 1000)) false false ;;
     my_print " seconds" true false
   else ret tt) ;;
  run_half_cycle fuel offPeriod ;;
  ret tt.

Definition loop (fuel : nat) : prog unit :=
  completed <- on_phase fuel ;;
  m <- gets currentMode ;;
  if completed && negb (Mode_eqb m RUN) then off_phase fuel else ret tt.

Definition setup : prog unit :=
  pinMode controlPin OUTPUT ;;
  pinMode groundPin OUTPUT ;;
  pinMode indicatorPin OUTPUT ;;
  pinMode modePin INPUT_PULLUP ;;
  digitalWrite groundPin LOW ;;
  Serial_begin 57600 ;;
  delay 5000 ;;
  update_indicator true.

Fixpoint loops (n fuel : nat) : prog unit :=
  match n with
  | O => ret tt
  | S n' => loop fuel ;; loops n' fuel
  end.

Definition arduino_main (n fuel : nat) : prog unit :=
  setup ;; loops n fuel.

End Part000.

(** Two worlds agree when their globals, statics and input cursors are
    equal and their traces hold the same pin writes. *)
Definition agree (w1 w2 : World) : Prop :=
  currentMode w1 = currentMode w2 /\
  currentIndicatorState w1 = currentIndicatorState w2 /\
  currentPowerState w1 = currentPowerState w2 /\
  lastSeenMode w1 = lastSeenMode w2 /\
  indicatorState w1 = indicatorState w2 /\
  blinking w1 = blinking w2 /\
  blinkStart w1 = blinkStart w2 /\
  blinkEnd w1 = blinkEnd w2 /\
  millisReads w1 = millisReads w2 /\
  pinReads w1 = pinReads w2 /\
  pin_writes (trace w1) = pin_writes (trace w2).

(** The second input shows the second version what the first input shows
    the first: the same clock, and on pin 12 the switch that the first
    version has on pin 11. *)
Definition same_inputs (env1 env2 : Env) : Prop :=
  (forall n, millis_at env2 n = millis_at env1 n) /\
  (forall n, pin_at env2 Part000.modePin n = pin_at env1 modePin n).

(** [p2] under the second input does what [p1] does under the first: from
    worlds that agree, both run out of fuel, or both return, the same
    result, in worlds that agree. *)
Definition simulates {A : Type} (env1 env2 : Env) (p1 p2 : prog A) : Prop :=
  forall w1 w2,
    agree w1 w2 ->
    match p1 env1 w1, p2 env2 w2 with
    | Some (a1, w1'), Some (a2, w2') => a1 = a2 /\ agree w1' w2'
    | None, None => True
    | _, _ => False
    end.

(** The world when the first [loop()] of the second version has returned
    under the input that leads the first version to [world_run_low]. *)
Definition world_run_low_part000 : World :=
  Eval vm_compute in
    match Part000.arduino_main 1 2 env_press_in_off_phase initial_world with
    | Some (_, w) => w
    | None => initial_world
    end.
(** The control pin was last written [v], and [v] is the power state. *)
Definition control_level (v : Z) (w : World) : Prop :=
  last_write controlPin (trace w) = Some v /\ currentPowerState w = v.








(** The world when a poll, five seconds after [setup()], has serviced the
    indicator of [world_booted]. *)
Definition world_blinked : World :=
  Eval vm_compute in
    match update_indicator false (env_clock_at 5000) world_booted with
    | Some (_, w) => w
    | None => initial_world
    end.

(* ================================================================== *)
(** ** Reasoning about sketch computations *)

Lemma bind_Some {A B : Type} (p : prog A) (k : A -> prog B) env w b w'' :
  bind p k env w = Some (b, w'') <->
  exists a w', p env w = Some (a, w') /\ k a env w' = Some (b, w'').
Proof.
  unfold bind. split.
  - destruct (p env w) as [[a w']|] eqn:E; [|discriminate].
    intros H. exists a, w'. split; [reflexivity|exact H].
  - intros (a & w' & Hp & Hk). rewrite Hp. exact Hk.
Qed.

Lemma bind_assoc {A B C : Type} (p : prog A) (k : A -> prog B)
      (h : B -> prog C) env w :
  bind (bind p k) h env w = bind p (fun a => bind (k a) h) env w.
Proof. unfold bind. destruct (p env w) as [[a w']|]; reflexivity. Qed.

Lemma bind_run {A B : Type} (p : prog A) (k : A -> prog B) env w a w' :
  p env w = Some (a, w') -> bind p k env w = k a env w'.
Proof. intros H. unfold bind. rewrite H. reflexivity. Qed.

(** Unfold the monad and the primitives, keeping arithmetic folded. *)
Ltac step_prims :=
  cbv beta iota delta
    [bind ret gets modify emit out_of_fuel
     millis my_millis digitalRead digitalWrite pinMode delay
     Serial_begin Serial_print Serial_println Serial_print_num
     Serial_println_num
     currentMode currentIndicatorState currentPowerState lastSeenMode
     indicatorState blinking blinkStart blinkEnd millisReads pinReads trace
     with_currentMode with_currentIndicatorState with_currentPowerState
     with_lastSeenMode with_indicatorState with_blinking with_blinkStart
     with_blinkEnd with_millisReads with_pinReads with_trace fst snd].

(** Case analysis on every condition the computation branches on. *)
Ltac split_ifs :=
  repeat match goal with
  | |- context [if ?c then _ else _] =>
      lazymatch c with
      | true => fail
      | false => fail
      | _ => let E := fresh "E" in destruct c eqn:E
      end; step_prims
  end.

(* ================================================================== *)
(** ** Mode rotation *)

Lemma increment_mode_run env w :
  increment_mode env w = Some (tt, with_currentMode (spec_successor (currentMode w)) w).
Proof. destruct w as [[] ? ? ? ? ? ? ? ? ? ?]; reflexivity. Qed.

(** C7: from every starting mode, increment_mode follows the cyclic order
    Repeat, Schedule, Run, Repeat, and three applications of it give back
    the world they started from, so the original mode. *)
Theorem increment_mode_three_times env w :
  increment_mode env w
    = Some (tt, with_currentMode (spec_successor (currentMode w)) w)
  /\ (increment_mode ;; increment_mode ;; increment_mode) env w = Some (tt, w).
Proof.
  split; [apply increment_mode_run|].
  destruct w as [[] ? ? ? ? ? ? ? ? ? ?]; reflexivity.
Qed.

(* ================================================================== *)
(** ** The power controller *)

(** What [request_power_state] computes, in closed form. *)
Lemma request_power_state_run env w req :
  request_power_state req env w =
  let newState := match currentMode w with RUN => HIGH | _ => req end in
  let honored := match currentMode w with RUN => req =? HIGH | _ => true end in
  let tr0 := PrintlnNum req :: Print "DEBUG: Requested Power State " :: trace w in
  let w1 :=
    if negb (newState =? currentPowerState w) then
      with_millisReads (S (millisReads w))
        (with_trace
           (PrintlnNum (wrap (wrap (millis_at env (millisReads w)) + millisOffset))
            :: Print "DEBUG: Power State Changed, Time="
            :: DigitalWrite controlPin newState :: tr0)
           (with_currentPowerState newState w))
    else with_trace tr0 w in
  let w2 :=
    if honored then
      with_millisReads (S (millisReads w1))
        (with_trace
           (PrintlnNum (wrap (wrap (millis_at env (millisReads w1)) + millisOffset))
            :: Print "DEBUG: Request Honored, Time=" :: trace w1)
           w1)
    else w1 in
  Some (honored, w2).
Proof.
  destruct w as [m i p l st bl bs be mr pr tr].
  unfold request_power_state. step_prims.
  destruct m; cbv zeta; step_prims.
  all: destruct (req =? p) eqn:E1; try destruct (HIGH =? p) eqn:E2;
    try destruct (req =? HIGH) eqn:E3;
    cbv beta iota delta [negb]; step_prims; reflexivity.
Qed.

(** C8: for every requested state and every world, request_power_state
    run in REPEAT mode and run in SCHEDULE mode return the same honored
    flag and leave worlds that differ in the mode field alone: the same
    currentPowerState and the same trace, so the same output writes. *)
Theorem request_power_state_schedule_as_repeat env w req :
  exists honored w',
    request_power_state req env (with_currentMode REPEAT w)
      = Some (honored, w') /\
    request_power_state req env (with_currentMode SCHEDULE w)
      = Some (honored, with_currentMode SCHEDULE w') /\
    currentMode w' = REPEAT.
Proof.
  rewrite !request_power_state_run.
  destruct w as [m i p l st bl bs be mr pr tr]. step_prims. cbv zeta.
  destruct (negb (req =? p)); do 2 eexists;
    (split; [reflexivity | split; reflexivity]).
Qed.

(** C2 (counterexample): in the world reached when the first loop() has
    returned after a switch press in the off-phase, the mode is RUN and the
    power state is LOW; there request_power_state(LOW) is not honored, yet
    it changes currentPowerState from LOW to HIGH and writes the control
    pin.  So it is not true that a LOW request never changes the power
    state in RUN mode. *)
Lemma request_low_in_run_changes_power :
  currentMode world_run_low = RUN /\
  currentPowerState world_run_low = LOW /\
  option_map (fun r => (fst r, currentPowerState (snd r),
                        hd_error (pin_writes (trace (snd r)))))
    (request_power_state LOW env_press_in_off_phase world_run_low)
  = Some (false, HIGH, Some (controlPin, HIGH)) /\
  ~ (forall env w honored w',
       currentMode w = RUN ->
       request_power_state LOW env w = Some (honored, w') ->
       honored = false /\ currentPowerState w' = currentPowerState w).
Proof.
  split; [reflexivity|]. split; [reflexivity|]. split; [vm_compute; reflexivity|].
  intros claim.
  destruct (request_power_state LOW env_press_in_off_phase world_run_low)
    as [[honored w']|] eqn:E; [|vm_compute in E; discriminate E].
  destruct (claim env_press_in_off_phase world_run_low honored w' eq_refl E)
    as (_ & Hsame).
  vm_compute in E. inversion E; subst. vm_compute in Hsame. discriminate Hsame.
Qed.

(** C2 (amended): in RUN mode request_power_state(LOW) returns false and
    never sets currentPowerState to LOW: the state is HIGH afterwards, so
    it is left unchanged, with no pin written, when it was HIGH already and
    is forced HIGH otherwise; request_power_state(HIGH) is honored, and
    likewise leaves the state unchanged when it was HIGH already. *)
Theorem request_power_state_in_run env w :
  currentMode w = RUN ->
  (exists w',
     request_power_state LOW env w = Some (false, w') /\
     currentMode w' = RUN /\
     currentPowerState w' = HIGH /\
     (currentPowerState w = HIGH ->
      pin_writes (trace w') = pin_writes (trace w))) /\
  (exists w',
     request_power_state HIGH env w = Some (true, w') /\
     currentMode w' = RUN /\
     currentPowerState w' = HIGH /\
     (currentPowerState w = HIGH ->
      pin_writes (trace w') = pin_writes (trace w))).
Proof.
  intros Hm. rewrite !request_power_state_run.
  destruct w as [m i p l st bl bs be mr pr tr]. simpl in Hm. subst m.
  step_prims. cbv zeta.
  change (LOW =? HIGH) with false. change (HIGH =? HIGH) with true.
  cbv iota.
  destruct (HIGH =? p) eqn:E; cbv beta iota delta [negb]; step_prims;
    (split; eexists; (split; [reflexivity|]); step_prims;
     repeat split; try reflexivity; try intros Hp).
  all: try reflexivity.
  all: apply Z.eqb_eq in E || apply Z.eqb_neq in E; congruence.
Qed.

Lemma request_power_state_in_run_witness :
  currentMode world_run_low = RUN /\
  exists w',
    request_power_state LOW env_press_in_off_phase world_run_low
      = Some (false, w') /\
    currentMode w' = RUN /\
    currentPowerState w' = HIGH /\
    (currentPowerState world_run_low = HIGH ->
     pin_writes (trace w') = pin_writes (trace world_run_low)).
Proof.
  split; [reflexivity|].
  apply (request_power_state_in_run env_press_in_off_phase world_run_low).
  reflexivity.
Defined.

(* ================================================================== *)
(** ** The indicator controller *)

(** [update_indicator] always returns; it touches nothing but its own
    statics, the clock cursor and the trace, and it writes the pin when
    told of a mode change or when the level changes. *)
Lemma update_indicator_run modeChange env w :
  exists w',
    update_indicator modeChange env w = Some (tt, w') /\
    same_control w w' /\
    trace w' =
      if modeChange || negb (indicatorState w' =? indicatorState w)
      then DigitalWrite indicatorPin (indicatorState w') :: trace w
      else trace w.
Proof.
  destruct w as [m i p l st bl bs be mr pr tr].
  unfold update_indicator, time_surpassed, same_control.
  destruct modeChange; [destruct m|]; step_prims; split_ifs.
  all: eexists; split; [reflexivity|]; step_prims.
  all: split; [repeat split|].
  all: try reflexivity.
  all: try (rewrite Z.eqb_refl; reflexivity).
  all: match goal with
       | H : (_ =? HIGH) = true |- _ =>
           apply Z.eqb_eq in H; rewrite H; reflexivity
       | H : (_ =? HIGH) = false |- _ =>
           rewrite Z.eqb_sym, H; reflexivity
       end.
Qed.

(** C9 (counterexample): after setup() the indicator pin is driven HIGH.
    When the mode then changes to RUN, whose level is HIGH as well,
    update_indicator(true) leaves the level at HIGH and still writes the
    pin.  So it is not true that a call that leaves the level unchanged
    writes no pin. *)
Lemma update_indicator_rewrites_driven_level :
  indicatorState world_booted = HIGH /\
  hd_error (pin_writes (trace world_booted)) = Some (indicatorPin, HIGH) /\
  update_indicator true env_press_at_first_poll
    (with_currentIndicatorState ON (with_currentMode RUN world_booted))
  = Some (tt, with_trace
                (DigitalWrite indicatorPin HIGH :: trace world_booted)
                (with_blinking false
                   (with_currentIndicatorState ON
                      (with_currentMode RUN world_booted)))) /\
  ~ (forall modeChange env w a w',
       update_indicator modeChange env w = Some (a, w') ->
       indicatorState w' = indicatorState w ->
       pin_writes (trace w') = pin_writes (trace w)).
Proof.
  split; [reflexivity|]. split; [reflexivity|].
  assert (E : update_indicator true env_press_at_first_poll
                (with_currentIndicatorState ON (with_currentMode RUN world_booted))
              = Some (tt, with_trace
                            (DigitalWrite indicatorPin HIGH :: trace world_booted)
                            (with_blinking false
                               (with_currentIndicatorState ON
                                  (with_currentMode RUN world_booted)))))
    by (vm_compute; reflexivity).
  split; [exact E|].
  intros claim. specialize (claim _ _ _ _ _ E eq_refl).
  vm_compute in claim. discriminate claim.
Qed.

(** C9 (amended): update_indicator writes the indicator pin exactly on the
    calls whose modeChange argument is true or on which the logical level
    changes; a call with modeChange false that leaves the level unchanged
    writes nothing and leaves the trace as it was, and a call with
    modeChange true writes the pin whether or not the level changes. *)
Theorem update_indicator_writes env w modeChange :
  exists w',
    update_indicator modeChange env w = Some (tt, w') /\
    trace w' =
      if modeChange || negb (indicatorState w' =? indicatorState w)
      then DigitalWrite indicatorPin (indicatorState w') :: trace w
      else trace w.
Proof.
  destruct (update_indicator_run modeChange env w) as (w' & Hrun & _ & Htr).
  exists w'. split; assumption.
Qed.

(* ================================================================== *)
(** ** Start-up *)

(** [world_booted] is the world in which [setup()] returns in each of the
    scenarios that start from it. *)
Lemma world_booted_reached :
  setup env_press_at_first_poll initial_world = Some (tt, world_booted) /\
  setup env_press_at_third_poll initial_world = Some (tt, world_booted) /\
  setup env_bounce initial_world = Some (tt, world_booted).
Proof. vm_compute. repeat split. Qed.

(** C10: at program start the mode is SCHEDULE, the indicator state is
    BLINKING and the power state is LOW, no input has been read and nothing
    has been output.  setup() always returns; it leaves these three globals
    alone, reads no pin, makes no power request, and initializes the
    indicator for the SCHEDULE default: blinking is switched on and the
    indicator pin is written.  So the device boots into the blinking
    schedule mode, not into REPEAT. *)
Theorem boot_defaults env :
  currentMode initial_world = SCHEDULE /\
  currentIndicatorState initial_world = BLINKING /\
  currentPowerState initial_world = LOW /\
  millisReads initial_world = 0%nat /\
  pinReads initial_world = 0%nat /\
  trace initial_world = [] /\
  exists w',
    setup env initial_world = Some (tt, w') /\
    currentMode w' = SCHEDULE /\
    currentMode w' <> REPEAT /\
    currentIndicatorState w' = BLINKING /\
    currentPowerState w' = LOW /\
    pinReads w' = 0%nat /\
    blinking w' = true /\
    (indicatorState w' = HIGH \/ indicatorState w' = LOW) /\
    pin_writes (trace w')
      = [(indicatorPin, indicatorState w'); (groundPin, LOW)].
Proof.
  repeat (split; [reflexivity|]).
  unfold setup, update_indicator, time_surpassed, initial_world.
  step_prims. split_ifs.
  all: eexists; split; [reflexivity|]; step_prims.
  all: repeat split; try reflexivity; try discriminate.
  all: first [left; reflexivity | right; reflexivity].
Qed.

(* ================================================================== *)
(** ** The overflow-aware timer *)

(** Linear arithmetic with the width of the counter made explicit. *)
Ltac ulong_lia := change (2 ^ ULONG_WIDTH) with 4294967296 in *; lia.

Lemma wrap_range z : 0 <= wrap z < 2 ^ ULONG_WIDTH.
Proof. unfold wrap. apply Z.mod_pos_bound. reflexivity. Qed.

Lemma wrap_small z : 0 <= z < 2 ^ ULONG_WIDTH -> wrap z = z.
Proof. intros H. unfold wrap. apply Z.mod_small. exact H. Qed.

Lemma wrap_idem z : wrap (wrap z) = wrap z.
Proof. apply wrap_small, wrap_range. Qed.

Lemma wrap_over z :
  2 ^ ULONG_WIDTH <= z < 2 * 2 ^ ULONG_WIDTH -> wrap z = z - 2 ^ ULONG_WIDTH.
Proof.
  intros H. unfold wrap. symmetry.
  apply Z.mod_unique with (q := 1); [left|]; ulong_lia.
Qed.

Lemma wrap_under z :
  - 2 ^ ULONG_WIDTH <= z < 0 -> wrap z = z + 2 ^ ULONG_WIDTH.
Proof.
  intros H. unfold wrap. symmetry.
  apply Z.mod_unique with (q := -1); [left|]; ulong_lia.
Qed.

Lemma my_millis_run env w :
  my_millis env w = Some (now_at env w, with_millisReads (S (millisReads w)) w).
Proof.
  unfold my_millis, millis, bind, ret, now_at, millisOffset.
  rewrite Z.add_0_r, wrap_idem. reflexivity.
Qed.

Lemma time_surpassed_run targetTime originalTime env w :
  time_surpassed targetTime originalTime env w =
  Some (if (targetTime <? originalTime) && (now_at env w >? originalTime)
        then false
        else now_at env w >? targetTime,
        with_millisReads (S (millisReads w)) w).
Proof.
  unfold time_surpassed. rewrite (bind_run _ _ _ _ _ _ (my_millis_run env w)).
  destruct ((targetTime <? originalTime) && (now_at env w >? originalTime));
    reflexivity.
Qed.

(** X1: Away from two situations the timer is exact: it answers whether more
    than [d] ticks have gone by since [origin], on the wrapping counter.
    The situations are: the target wrapped and the clock still reads
    [origin]; the target did not wrap and the clock itself has wrapped. *)
Lemma time_surpassed_exact env w origin d :
  0 <= origin < 2 ^ ULONG_WIDTH ->
  0 <= d < 2 ^ ULONG_WIDTH ->
  ~ (2 ^ ULONG_WIDTH <= origin + d /\ now_at env w = origin) ->
  ~ (origin + d < 2 ^ ULONG_WIDTH /\ now_at env w < origin) ->
  time_surpassed (wrap (origin + d)) origin env w =
  Some (spec_passed origin d (now_at env w),
        with_millisReads (S (millisReads w)) w).
Proof.
  intros Ho Hd H1 H2. rewrite time_surpassed_run. f_equal. f_equal.
  unfold spec_passed, spec_elapsed.
  pose proof (wrap_range (millis_at env (millisReads w))) as Hn.
  fold (now_at env w) in Hn. generalize dependent (now_at env w).
  intros now H1 H2 Hn.
  destruct (Z_lt_le_dec (origin + d) (2 ^ ULONG_WIDTH)) as [Hs|Hw].
  - rewrite (wrap_small (origin + d)) by ulong_lia.
    rewrite (wrap_small (now - origin)) by ulong_lia.
    destruct (Z.ltb_spec (origin + d) origin); [ulong_lia|]. cbv [andb].
    destruct (Z.gtb_spec now (origin + d)), (Z.gtb_spec (now - origin) d);
      try reflexivity; ulong_lia.
  - rewrite (wrap_over (origin + d)) by ulong_lia.
    destruct (Z.ltb_spec (origin + d - 2 ^ ULONG_WIDTH) origin); [|ulong_lia].
    cbv [andb].
    destruct (Z.gtb_spec now origin).
    + rewrite (wrap_small (now - origin)) by ulong_lia.
      destruct (Z.gtb_spec (now - origin) d); [ulong_lia|reflexivity].
    + rewrite (wrap_under (now - origin)) by ulong_lia.
      destruct (Z.gtb_spec now (origin + d - 2 ^ ULONG_WIDTH)),
               (Z.gtb_spec (now - origin + 2 ^ ULONG_WIDTH) d);
        try reflexivity; ulong_lia.
Qed.

(** Whenever the target of a wait has wrapped and the clock still reads
    the origin, the timer reports the wait as over, although the clock is
    at the first tick of the interval. *)
Lemma time_surpassed_wrapped_at_origin env w origin d :
  0 <= origin < 2 ^ ULONG_WIDTH ->
  0 < d < 2 ^ ULONG_WIDTH ->
  2 ^ ULONG_WIDTH <= origin + d ->
  now_at env w = origin ->
  spec_waiting origin d (now_at env w) = true /\
  time_surpassed (wrap (origin + d)) origin env w =
  Some (true, with_millisReads (S (millisReads w)) w).
Proof.
  intros Ho Hd Hw Hnow. rewrite time_surpassed_run, Hnow. split.
  - unfold spec_waiting, spec_elapsed. rewrite Z.sub_diag.
    apply Z.ltb_lt. rewrite wrap_small by ulong_lia. lia.
  - rewrite (wrap_over (origin + d)) by ulong_lia.
    destruct (Z.gtb_spec origin origin); [lia|].
    rewrite andb_false_r.
    destruct (Z.gtb_spec origin (origin + d - 2 ^ ULONG_WIDTH));
      [reflexivity|ulong_lia].
Qed.

(** C1 (the code at the failing input): an on-phase of 30000 ticks that
    starts at tick 4294967290 has its target wrapped to tick 29994.  While
    the clock still reads 4294967290, the first tick of the interval from
    the origin to the target, time_surpassed already answers true, and
    run_half_cycle, entered with that clock, reports the half cycle as
    completed without a single poll. *)
Theorem time_surpassed_true_at_origin_of_wrapped_wait :
  wrap (4294967290 + onPeriod) = 29994 /\
  spec_waiting 4294967290 onPeriod 4294967290 = true /\
  time_surpassed (wrap (4294967290 + onPeriod)) 4294967290
    (env_clock_at 4294967290) initial_world
  = Some (true, with_millisReads 1 initial_world) /\
  option_map (fun r => (fst r, pinReads (snd r)))
    (run_half_cycle 0 onPeriod (env_clock_at 4294967290) world_booted)
  = Some (true, 0%nat).
Proof. vm_compute. repeat split. Qed.

(** A wait whose target is the largest tick is never reported as over,
    whatever the clock reads. *)
Lemma time_surpassed_never_at_last_tick env w origin :
  origin <= 2 ^ ULONG_WIDTH - 1 ->
  time_surpassed (2 ^ ULONG_WIDTH - 1) origin env w =
  Some (false, with_millisReads (S (millisReads w)) w).
Proof.
  intros Ho. rewrite time_surpassed_run.
  pose proof (wrap_range (millis_at env (millisReads w))) as Hn.
  fold (now_at env w) in Hn.
  destruct (Z.ltb_spec (2 ^ ULONG_WIDTH - 1) origin); [lia|]. cbv [andb].
  destruct (Z.gtb_spec (now_at env w) (2 ^ ULONG_WIDTH - 1));
    [lia|reflexivity].
Qed.

(** So for an on-phase of 30000 ticks that starts at tick 4294937295:
    after the clock has wrapped to 4, more than 30000 ticks past the
    origin, time_surpassed still answers false. *)
Lemma time_surpassed_false_after_clock_wrapped :
  wrap (4294937295 + onPeriod) = 4294967295 /\
  spec_passed 4294937295 onPeriod 4 = true /\
  time_surpassed (wrap (4294937295 + onPeriod)) 4294937295
    (env_clock_at 4) initial_world
  = Some (false, with_millisReads 1 initial_world).
Proof. vm_compute. repeat split. Qed.

(* ================================================================== *)
(** ** Frame reasoning: what a computation leaves alone *)

Lemma frame_rel_keeps {A : Type} (f : World -> A) :
  (forall n w, f (with_millisReads n w) = f w) ->
  (forall n w, f (with_pinReads n w) = f w) ->
  (forall t w, f (with_trace t w) = f w) ->
  (forall v w, f (with_indicatorState v w) = f w) ->
  (forall b w, f (with_blinking b w) = f w) ->
  (forall t w, f (with_blinkStart t w) = f w) ->
  (forall t w, f (with_blinkEnd t w) = f w) ->
  frame_rel (keeps f).
Proof.
  intros. constructor; unfold keeps; intros; try congruence; auto.
Qed.

Lemma frame_keeps_currentMode : frame_rel (keeps currentMode).
Proof. apply frame_rel_keeps; reflexivity. Qed.

Lemma frame_keeps_currentIndicatorState : frame_rel (keeps currentIndicatorState).
Proof. apply frame_rel_keeps; reflexivity. Qed.

Lemma frame_keeps_currentPowerState : frame_rel (keeps currentPowerState).
Proof. apply frame_rel_keeps; reflexivity. Qed.

Lemma frame_keeps_lastSeenMode : frame_rel (keeps lastSeenMode).
Proof. apply frame_rel_keeps; reflexivity. Qed.

Lemma frame_keeps_indicator_matches : frame_rel keeps_indicator_matches.
Proof.
  constructor; unfold keeps_indicator_matches, indicator_matches; intros;
    auto.
Qed.

Section Frame.

Variable R : World -> World -> Prop.
Hypothesis HR : frame_rel R.

Lemma preserves_ret {A : Type} (a : A) : preserves R (ret a).
Proof.
  intros env w a' w' H. inversion H; subst. apply (fr_refl R HR).
Qed.

Lemma preserves_gets {A : Type} (f : World -> A) : preserves R (gets f).
Proof.
  intros env w a' w' H. inversion H; subst. apply (fr_refl R HR).
Qed.

Lemma preserves_out_of_fuel {A : Type} : preserves R (@out_of_fuel A).
Proof. intros env w a' w' H. discriminate H. Qed.

Lemma preserves_bind {A B : Type} (p : prog A) (k : A -> prog B) :
  preserves R p -> (forall a, preserves R (k a)) -> preserves R (bind p k).
Proof.
  intros Hp Hk env w b w'' H.
  apply bind_Some in H. destruct H as (a & w' & H1 & H2).
  apply (fr_trans R HR) with w'; [eapply Hp | eapply Hk]; eassumption.
Qed.

Lemma preserves_modify (f : World -> World) :
  (forall w, R w (f w)) -> preserves R (modify f).
Proof. intros Hf env w a w' H. inversion H; subst. apply Hf. Qed.

Lemma preserves_emit e : preserves R (emit e).
Proof. apply preserves_modify. intros w. apply (fr_trace R HR). Qed.

Lemma preserves_millis : preserves R millis.
Proof.
  intros env w a w' H. inversion H; subst. apply (fr_millisReads R HR).
Qed.

Lemma preserves_digitalRead pin : preserves R (digitalRead pin).
Proof.
  intros env w a w' H. inversion H; subst. apply (fr_pinReads R HR).
Qed.

End Frame.

(** Walk through a computation, discharging each step with the frame. *)
Ltac frame_step HR :=
  first
    [ assumption
    | match goal with H : context [preserves] |- preserves _ _ => apply H end
    | apply (preserves_ret _ HR)
    | apply (preserves_gets _ HR)
    | apply preserves_out_of_fuel
    | apply (preserves_emit _ HR)
    | apply (preserves_millis _ HR)
    | apply (preserves_digitalRead _ HR)
    | apply preserves_modify; intros;
      first [ apply (fr_indicatorState _ HR) | apply (fr_blinking _ HR)
            | apply (fr_blinkStart _ HR) | apply (fr_blinkEnd _ HR)
            | apply (fr_trace _ HR) ]
    | apply (preserves_bind _ HR); [| intros ? ]
    | match goal with
      | |- preserves _ (if ?c then _ else _) => destruct c
      | |- preserves _ (match ?m with _ => _ end) => destruct m
      end ].

Ltac frame HR := repeat frame_step HR.

Section FrameSketch.

Variable R : World -> World -> Prop.
Hypothesis HR : frame_rel R.

Lemma preserves_my_millis : preserves R my_millis.
Proof. unfold my_millis. frame HR. Qed.

Lemma preserves_time_surpassed target origin :
  preserves R (time_surpassed target origin).
Proof.
  pose proof preserves_my_millis. unfold time_surpassed. frame HR.
Qed.

Lemma preserves_update_indicator modeChange :
  preserves R (update_indicator modeChange).
Proof.
  pose proof preserves_my_millis. pose proof preserves_time_surpassed.
  unfold update_indicator, digitalWrite. frame HR.
Qed.

Lemma preserves_wait_release fuel val lastVal :
  preserves R (wait_release fuel val lastVal).
Proof.
  pose proof preserves_update_indicator.
  revert val lastVal. induction fuel as [|fuel IH]; intros val lastVal;
    simpl; frame HR.
Qed.

Lemma preserves_debounce_wait fuel lastVal initialTime fullyDebouncedTime :
  preserves R (debounce_wait fuel lastVal initialTime fullyDebouncedTime).
Proof.
  pose proof preserves_update_indicator. pose proof preserves_my_millis.
  pose proof preserves_time_surpassed.
  revert initialTime fullyDebouncedTime.
  induction fuel as [|fuel IH]; intros initialTime fullyDebouncedTime;
    simpl; frame HR.
Qed.

End FrameSketch.

Section FrameModeChange.

(** Relations that are also indifferent to the mode and to the indicator
    state are kept by the mode switch handling. *)
Variable R : World -> World -> Prop.
Hypothesis HR : frame_rel R.
Hypothesis Hmode : forall m w, R w (with_currentMode m w).
Hypothesis Hind : forall i w, R w (with_currentIndicatorState i w).

Lemma preserves_increment_mode : preserves R increment_mode.
Proof.
  unfold increment_mode. frame HR; apply preserves_modify; apply Hmode.
Qed.

Lemma preserves_match_indicator_to_mode : preserves R match_indicator_to_mode.
Proof.
  pose proof (preserves_update_indicator R HR).
  unfold match_indicator_to_mode. frame HR; apply preserves_modify; apply Hind.
Qed.

Lemma preserves_mode_change_check fuel : preserves R (mode_change_check fuel).
Proof.
  pose proof preserves_increment_mode.
  pose proof preserves_match_indicator_to_mode.
  pose proof (preserves_my_millis R HR).
  pose proof (preserves_wait_release R HR).
  pose proof (preserves_debounce_wait R HR).
  unfold mode_change_check, await_release, mode_to_string, Serial_print,
    Serial_println, Serial_print_num, Serial_println_num.
  frame HR.
Qed.

End FrameModeChange.

Section FrameHalfCycle.

(** Relations that the mode switch handling keeps and that are indifferent
    to the static [lastSeenMode] are kept by a half cycle. *)
Variable R : World -> World -> Prop.
Hypothesis HR : frame_rel R.
Hypothesis Hlast : forall l w, R w (with_lastSeenMode l w).
Hypothesis Hmcc : forall fuel, preserves R (mode_change_check fuel).

Lemma preserves_get_lastSeenMode : preserves R get_lastSeenMode.
Proof. unfold get_lastSeenMode. frame HR. Qed.

Lemma preserves_half_cycle_body fuel : preserves R (half_cycle_body fuel).
Proof.
  pose proof (preserves_my_millis R HR).
  pose proof (preserves_update_indicator R HR).
  pose proof preserves_get_lastSeenMode.
  unfold half_cycle_body, poll_indicator, bail_on_mode_change, Serial_print,
    Serial_println_num.
  frame HR; apply preserves_modify; apply Hlast.
Qed.

Lemma preserves_half_cycle_loop fuel next initialTime :
  preserves R (half_cycle_loop fuel next initialTime).
Proof.
  pose proof (preserves_time_surpassed R HR).
  pose proof preserves_half_cycle_body.
  induction fuel as [|fuel IH]; simpl; frame HR.
Qed.

Lemma preserves_half_cycle_begin period : preserves R (half_cycle_begin period).
Proof.
  pose proof (preserves_my_millis R HR).
  unfold half_cycle_begin, init_lastSeenMode, next_switch_time, Serial_print,
    Serial_println, Serial_print_num, Serial_println_num.
  frame HR; apply preserves_modify; apply Hlast.
Qed.

Lemma preserves_run_half_cycle fuel period :
  preserves R (run_half_cycle fuel period).
Proof.
  pose proof preserves_half_cycle_begin. pose proof preserves_half_cycle_loop.
  unfold run_half_cycle. frame HR.
Qed.

Section FrameLoop.

(** Relations that are moreover indifferent to the power state are kept
    by the whole program. *)
Hypothesis Hpower : forall p w, R w (with_currentPowerState p w).

Lemma preserves_request_power_state req :
  preserves R (request_power_state req).
Proof.
  pose proof (preserves_my_millis R HR).
  unfold request_power_state, digitalWrite, Serial_print, Serial_println_num.
  frame HR; apply preserves_modify; apply Hpower.
Qed.

Lemma preserves_on_phase fuel : preserves R (on_phase fuel).
Proof.
  pose proof preserves_request_power_state. pose proof preserves_run_half_cycle.
  unfold on_phase, on_phase_begin, Serial_print, Serial_println,
    Serial_print_num.
  frame HR.
Qed.

Lemma preserves_off_phase fuel : preserves R (off_phase fuel).
Proof.
  pose proof preserves_request_power_state. pose proof preserves_run_half_cycle.
  unfold off_phase, Serial_print, Serial_println, Serial_print_num.
  frame HR.
Qed.

Lemma preserves_loop fuel : preserves R (loop fuel).
Proof.
  pose proof preserves_on_phase. pose proof preserves_off_phase.
  unfold loop. frame HR.
Qed.

Lemma preserves_loops n fuel : preserves R (loops n fuel).
Proof.
  pose proof preserves_loop. induction n as [|n IH]; simpl; frame HR.
Qed.

Lemma preserves_setup : preserves R setup.
Proof.
  pose proof (preserves_update_indicator R HR).
  unfold setup, pinMode, digitalWrite, Serial_begin, delay. frame HR.
Qed.

Lemma preserves_arduino_main n fuel : preserves R (arduino_main n fuel).
Proof.
  pose proof preserves_setup. pose proof preserves_loops.
  unfold arduino_main. frame HR.
Qed.

End FrameLoop.

End FrameHalfCycle.

(* ================================================================== *)
(** ** The mode switch *)

(** The frame tactic, aware of the loop-free parts of the sketch and of
    the two loops of [mode_change_check]. *)
Ltac sketch_frame HR :=
  repeat first
    [ apply (preserves_my_millis _ HR)
    | apply (preserves_time_surpassed _ HR)
    | apply (preserves_update_indicator _ HR)
    | apply (preserves_wait_release _ HR)
    | apply (preserves_debounce_wait _ HR)
    | progress unfold Serial_print, Serial_println, Serial_print_num,
        Serial_println_num, digitalWrite, pinMode, delay, Serial_begin,
        mode_to_string
    | frame_step HR ].

(** Turn [H : p env w = Some (a, w')] into [R w w'], the frame of [p]. *)
Ltac frame_in H R HR :=
  match type of H with
  | ?p ?env ?w = Some (?a, ?w') =>
      let F := fresh "F" in
      assert (F : preserves R p) by (sketch_frame HR);
      apply F in H
  end.

Lemma digitalRead_run pin env w :
  digitalRead pin env w =
  Some (if pin_at env pin (pinReads w) then HIGH else LOW,
        with_pinReads (S (pinReads w)) w).
Proof. reflexivity. Qed.

(** With the switch up, [mode_change_check] only consumes one reading. *)
Lemma mode_change_check_idle fuel env w :
  pin_at env modePin (pinReads w) = true ->
  mode_change_check fuel env w = Some (tt, with_pinReads (S (pinReads w)) w).
Proof.
  intros Hpin. unfold mode_change_check.
  rewrite (bind_run _ _ _ _ _ _ (digitalRead_run modePin env w)).
  rewrite Hpin. reflexivity.
Qed.

Lemma match_indicator_to_mode_establishes env w a w' :
  match_indicator_to_mode env w = Some (a, w') ->
  indicator_matches w' /\ currentMode w' = currentMode w.
Proof.
  unfold match_indicator_to_mode. intros H.
  apply bind_Some in H. destruct H as (i0 & w0 & H0 & H).
  inversion H0; subst; clear H0.
  apply bind_Some in H. destruct H as (m & w1 & H1 & H).
  inversion H1; subst; clear H1.
  apply bind_Some in H. destruct H as ([] & w2 & H2 & H).
  apply bind_Some in H. destruct H as (i1 & w3 & H3 & H).
  inversion H3; subst; clear H3.
  destruct (update_indicator_run
              (negb (IndicatorState_eqb (currentIndicatorState w1)
                       (currentIndicatorState w3))) env w3)
    as (w4 & E & (Hm & Hi & _) & _).
  rewrite E in H. inversion H; subst; clear H.
  unfold indicator_matches. rewrite Hm, Hi.
  destruct (currentMode w1) eqn:Em; inversion H2; subst; simpl;
    rewrite Em; split; reflexivity.
Qed.

(** With the switch down, [mode_change_check] advances the mode once,
    brings the indicator state in line with it, and leaves the power state
    and the static [lastSeenMode] alone. *)
Lemma mode_change_check_pressed fuel env w a w' :
  pin_at env modePin (pinReads w) = false ->
  mode_change_check fuel env w = Some (a, w') ->
  currentMode w' = spec_successor (currentMode w) /\
  indicator_matches w' /\
  lastSeenMode w' = lastSeenMode w /\
  currentPowerState w' = currentPowerState w.
Proof.
  intros Hpin H.
  pose proof (preserves_mode_change_check _ frame_keeps_lastSeenMode
                (fun _ _ => eq_refl) (fun _ _ => eq_refl) fuel _ _ _ _ H) as Hl.
  pose proof (preserves_mode_change_check _ frame_keeps_currentPowerState
                (fun _ _ => eq_refl) (fun _ _ => eq_refl) fuel _ _ _ _ H) as Hp.
  unfold mode_change_check in H.
  rewrite (bind_run _ _ _ _ _ _ (digitalRead_run modePin env w)) in H.
  rewrite Hpin in H. change (LOW =? LOW) with true in H. cbv iota in H.
  apply bind_Some in H. destruct H as (locals & w4 & Hawait & H).
  unfold await_release in Hawait.
  rewrite (bind_run _ _ _ _ _ _ (increment_mode_run env _)) in Hawait.
  apply bind_Some in Hawait. destruct Hawait as ([] & w3 & Hmatch & Hawait).
  apply match_indicator_to_mode_establishes in Hmatch.
  destruct Hmatch as (Hinv & Hmode).
  pose proof H as H'. pose proof Hawait as Hawait'.
  frame_in H (keeps currentMode) frame_keeps_currentMode.
  frame_in H' (keeps currentIndicatorState) frame_keeps_currentIndicatorState.
  frame_in Hawait (keeps currentMode) frame_keeps_currentMode.
  frame_in Hawait' (keeps currentIndicatorState)
    frame_keeps_currentIndicatorState.
  unfold keeps in *. unfold indicator_matches in *.
  simpl in Hmode. rewrite H, H', Hawait, Hawait', Hmode. rewrite Hmode in Hinv.
  repeat split; assumption.
Qed.

(** Whatever the switch does, [mode_change_check] keeps the indicator
    state in line with the mode. *)
Lemma mode_change_check_keeps_indicator_matches fuel :
  preserves keeps_indicator_matches (mode_change_check fuel).
Proof.
  intros env w a w' H Hinv.
  destruct (pin_at env modePin (pinReads w)) eqn:Hpin.
  - rewrite (mode_change_check_idle fuel env w Hpin) in H.
    inversion H; subst. exact Hinv.
  - apply (mode_change_check_pressed fuel env w a w' Hpin H).
Qed.

(* ================================================================== *)
(** ** The indicator state follows the mode *)

Lemma keeps_indicator_matches_lastSeenMode l w :
  keeps_indicator_matches w (with_lastSeenMode l w).
Proof. intros H. exact H. Qed.

Lemma keeps_indicator_matches_currentPowerState p w :
  keeps_indicator_matches w (with_currentPowerState p w).
Proof. intros H. exact H. Qed.

(** C6 (counterexample): increment_mode changes currentMode and returns
    with currentIndicatorState as it was.  From the initial world, where
    the two agree, it yields mode RUN with indicator state BLINKING.  So it
    is not true that every operation that changes currentMode returns with
    the correspondence in place. *)
Lemma increment_mode_leaves_indicator_state_behind :
  indicator_matches initial_world /\
  increment_mode env_press_at_first_poll initial_world
    = Some (tt, with_currentMode RUN initial_world) /\
  currentMode (with_currentMode RUN initial_world) = RUN /\
  currentIndicatorState (with_currentMode RUN initial_world) = BLINKING /\
  ~ indicator_matches (with_currentMode RUN initial_world) /\
  ~ (forall env w a w',
       indicator_matches w ->
       increment_mode env w = Some (a, w') ->
       indicator_matches w').
Proof.
  assert (Hno : ~ indicator_matches (with_currentMode RUN initial_world))
    by (unfold indicator_matches; simpl; discriminate).
  repeat split; try reflexivity; try exact Hno.
  intros claim. apply Hno.
  apply (claim env_press_at_first_poll initial_world tt); reflexivity.
Qed.

(** C6 (amended): currentIndicatorState equals the image of currentMode
    under Repeat to Off, Schedule to Blinking, Run to On in the initial
    world, and each of setup, loop, the whole run of setup followed by any
    number of loop calls, run_half_cycle, request_power_state,
    update_indicator and mode_change_check returns with the correspondence
    in place when it was entered with it; match_indicator_to_mode, which
    mode_change_check calls right after increment_mode, establishes it from
    any world. *)
Theorem indicator_matches_invariant :
  indicator_matches initial_world /\
  forall env w,
    indicator_matches w ->
    (forall a w', setup env w = Some (a, w') -> indicator_matches w') /\
    (forall fuel a w', loop fuel env w = Some (a, w') -> indicator_matches w') /\
    (forall n fuel a w',
        arduino_main n fuel env w = Some (a, w') -> indicator_matches w') /\
    (forall fuel period c w',
        run_half_cycle fuel period env w = Some (c, w') -> indicator_matches w') /\
    (forall req h w',
        request_power_state req env w = Some (h, w') -> indicator_matches w') /\
    (forall b a w',
        update_indicator b env w = Some (a, w') -> indicator_matches w') /\
    (forall fuel a w',
        mode_change_check fuel env w = Some (a, w') -> indicator_matches w') /\
    (forall w0 a w',
        match_indicator_to_mode env w0 = Some (a, w') -> indicator_matches w').
Proof.
  split; [reflexivity|]. intros env w Hinv.
  pose proof frame_keeps_indicator_matches as HR.
  pose proof keeps_indicator_matches_lastSeenMode as Hl.
  pose proof mode_change_check_keeps_indicator_matches as Hm.
  pose proof keeps_indicator_matches_currentPowerState as Hp.
  repeat split.
  - intros a w' H. exact (preserves_setup _ HR _ _ _ _ H Hinv).
  - intros fuel a w' H. exact (preserves_loop _ HR Hl Hm Hp fuel _ _ _ _ H Hinv).
  - intros n fuel a w' H.
    exact (preserves_arduino_main _ HR Hl Hm Hp n fuel _ _ _ _ H Hinv).
  - intros fuel period c w' H.
    exact (preserves_run_half_cycle _ HR Hl Hm fuel period _ _ _ _ H Hinv).
  - intros req h w' H.
    exact (preserves_request_power_state _ HR Hp req _ _ _ _ H Hinv).
  - intros b a w' H. exact (preserves_update_indicator _ HR b _ _ _ _ H Hinv).
  - intros fuel a w' H. exact (Hm fuel _ _ _ _ H Hinv).
  - intros w0 a w' H. apply (match_indicator_to_mode_establishes _ _ _ _ H).
Qed.

Lemma indicator_matches_invariant_witness :
  indicator_matches initial_world /\ indicator_matches world_run_low.
Proof.
  split; [reflexivity|].
  destruct indicator_matches_invariant as [H0 H].
  destruct (H env_press_in_off_phase initial_world H0)
    as (_ & _ & Hmain & _).
  apply (Hmain 1%nat 2%nat tt world_run_low).
  vm_compute. reflexivity.
Defined.

(* ================================================================== *)
(** ** Fuel: a result, once obtained, stays *)

(** Run two copies of a computation side by side, the hypothesis with
    less fuel and the goal with more; [tac] carries a result of a loop
    over to the larger fuel. *)
Ltac lockstep tac :=
  repeat match goal with
  | H : bind ?p ?k ?env ?w = Some ?r |- bind ?p' ?k' ?env ?w = Some ?r =>
      let a := fresh "a" in
      let w1 := fresh "w" in
      let H1 := fresh "Hs" in
      apply bind_Some in H; destruct H as (a & w1 & H1 & H);
      rewrite (bind_run p' k' env w a w1) by (first [exact H1 | tac]);
      cbv beta in H |- *
  | H : (if ?c then _ else _) ?env ?w = Some _ |- _ => destruct c
  end; try assumption.

Lemma wait_release_fuel_mono val lastVal :
  fuel_mono (fun fuel => wait_release fuel val lastVal).
Proof.
  intros f. revert val lastVal.
  induction f as [|f IH]; intros val lastVal f' env w [b wr] H Hle.
  - simpl in H. destruct f'; simpl; destruct (val =? LOW);
      first [discriminate H | exact H].
  - destruct f' as [|f']; [lia|]. simpl in *.
    destruct (val =? LOW); [|exact H].
    lockstep fail; (eapply IH; [eassumption|lia]).
Qed.

Lemma debounce_wait_fuel_mono lastVal initialTime fullyDebouncedTime :
  fuel_mono (fun fuel =>
               debounce_wait fuel lastVal initialTime fullyDebouncedTime).
Proof.
  intros f. revert initialTime fullyDebouncedTime.
  induction f as [|f IH]; intros initialTime fullyDebouncedTime f' env w [b wr] H Hle.
  - simpl in H. destruct f'; simpl; lockstep fail; discriminate H.
  - destruct f' as [|f']; [lia|]. simpl in *.
    lockstep fail; (eapply IH; [eassumption|lia]).
Qed.

Lemma await_release_fuel_mono val :
  fuel_mono (fun fuel => await_release fuel val).
Proof.
  intros f f' env w [b wr] H Hle. unfold await_release in *.
  lockstep ltac:(eapply wait_release_fuel_mono; [eassumption|exact Hle]).
Qed.

Lemma mode_change_check_fuel_mono : fuel_mono mode_change_check.
Proof.
  intros f f' env w [b wr] H Hle. unfold mode_change_check in *.
  lockstep ltac:(first
    [ eapply await_release_fuel_mono; [eassumption|exact Hle]
    | eapply debounce_wait_fuel_mono; [eassumption|exact Hle] ]).
Qed.

Lemma half_cycle_body_fuel_mono : fuel_mono half_cycle_body.
Proof.
  intros f f' env w [b wr] H Hle. unfold half_cycle_body in *.
  lockstep ltac:(eapply mode_change_check_fuel_mono; [eassumption|exact Hle]).
Qed.

Lemma half_cycle_loop_fuel_mono next initialTime :
  fuel_mono (fun fuel => half_cycle_loop fuel next initialTime).
Proof.
  intros f.
  induction f as [|f IH]; intros f' env w [b wr] H Hle.
  - simpl in H. destruct f'; simpl; lockstep fail; discriminate H.
  - destruct f' as [|f']; [lia|]. simpl in *.
    lockstep ltac:(eapply half_cycle_body_fuel_mono; [eassumption|lia]);
      (eapply IH; [eassumption|lia]).
Qed.

Lemma run_half_cycle_fuel_mono period :
  fuel_mono (fun fuel => run_half_cycle fuel period).
Proof.
  intros f f' env w [b wr] H Hle. unfold run_half_cycle in *.
  lockstep fail; (eapply half_cycle_loop_fuel_mono; [eassumption|exact Hle]).
Qed.

Lemma on_phase_fuel_mono : fuel_mono on_phase.
Proof.
  intros f f' env w [b wr] H Hle. unfold on_phase in *.
  lockstep fail; (eapply run_half_cycle_fuel_mono; [eassumption|exact Hle]).
Qed.

Lemma off_phase_fuel_mono : fuel_mono off_phase.
Proof.
  intros f f' env w [b wr] H Hle. unfold off_phase in *.
  lockstep ltac:(eapply run_half_cycle_fuel_mono; [eassumption|exact Hle]).
Qed.

Lemma loop_fuel_mono : fuel_mono loop.
Proof.
  intros f f' env w [b wr] H Hle. unfold loop in *.
  lockstep ltac:(eapply on_phase_fuel_mono; [eassumption|exact Hle]);
    (eapply off_phase_fuel_mono; [eassumption|exact Hle]).
Qed.

(* ================================================================== *)
(** ** A clean press is debounced: termination of [mode_change_check] *)

(** [update_indicator] reads the clock at most three times. *)
Lemma update_indicator_clock modeChange env w a w' :
  update_indicator modeChange env w = Some (a, w') ->
  (millisReads w <= millisReads w' <= millisReads w + 3)%nat.
Proof.
  destruct w as [m i p l st bl bs be mr pr tr].
  unfold update_indicator, time_surpassed.
  destruct modeChange; [destruct m|]; step_prims; split_ifs;
    intros H; inversion H; subst; simpl; lia.
Qed.

(** While the switch is held down [wait_release] polls it; it returns at
    the first reading that finds it up. *)
Lemma wait_release_returns env k :
  forall w,
    (forall j, (j < k)%nat -> pin_at env modePin (pinReads w + j) = false) ->
    pin_at env modePin (pinReads w + k) = true ->
    exists w',
      wait_release (S k) LOW LOW env w = Some ((HIGH, HIGH), w') /\
      pinReads w' = (pinReads w + k + 1)%nat /\
      (millisReads w <= millisReads w' <= millisReads w + 3 * (k + 1))%nat.
Proof.
  induction k as [|k IH]; intros w Hlow Hhigh.
  - rewrite Nat.add_0_r in Hhigh.
    destruct (update_indicator_run false env (with_pinReads (S (pinReads w)) w))
      as (w' & E & (_ & _ & _ & _ & Hr) & _).
    pose proof (update_indicator_clock _ _ _ _ _ E) as Hc.
    exists w'. split; [|simpl in *; split; lia].
    simpl. rewrite (bind_run _ _ _ _ _ _ (digitalRead_run modePin env w)).
    rewrite Hhigh. rewrite (bind_run _ _ _ _ _ _ E). reflexivity.
  - destruct (update_indicator_run false env (with_pinReads (S (pinReads w)) w))
      as (w1 & E & (_ & _ & _ & _ & Hr) & _).
    pose proof (update_indicator_clock _ _ _ _ _ E) as Hc.
    simpl in Hr, Hc.
    destruct (IH w1) as (w' & E' & Hr' & Hc').
    + intros j Hj. rewrite Hr.
      replace (S (pinReads w) + j)%nat with (pinReads w + S j)%nat by lia.
      apply Hlow. lia.
    + rewrite Hr.
      replace (S (pinReads w) + k)%nat with (pinReads w + S k)%nat by lia.
      exact Hhigh.
    + exists w'. split; [|split; lia].
      change (wait_release (S (S k)) LOW LOW env w)
        with ((v <- digitalRead modePin ;;
               update_indicator false ;;
               wait_release (S k) v v) env w).
      rewrite (bind_run _ _ _ _ _ _ (digitalRead_run modePin env w)).
      pose proof (Hlow 0%nat ltac:(lia)) as H0. rewrite Nat.add_0_r in H0.
      rewrite H0.
      rewrite (bind_run _ _ _ _ _ _ E). exact E'.
Qed.

(** With the switch up, the guard window ends unchanged as soon as the
    clock reads beyond its target; it does so at the latest at the [N]-th
    reading when all readings from then on are beyond the target. *)
Lemma debounce_wait_returns env N initialTime fullyDebouncedTime :
  initialTime <= fullyDebouncedTime ->
  (forall n, (N <= n)%nat -> fullyDebouncedTime < wrap (millis_at env n)) ->
  forall fuel w,
    (N <= millisReads w + fuel)%nat ->
    (forall n, (pinReads w <= n)%nat -> pin_at env modePin n = true) ->
    exists w',
      debounce_wait fuel HIGH initialTime fullyDebouncedTime env w
        = Some ((initialTime, fullyDebouncedTime), w').
Proof.
  intros Hle Hclock.
  assert (Ht : forall w,
             time_surpassed fullyDebouncedTime initialTime env w =
             Some (now_at env w >? fullyDebouncedTime,
                   with_millisReads (S (millisReads w)) w)).
  { intros w. rewrite time_surpassed_run.
    destruct (Z.ltb_spec fullyDebouncedTime initialTime); [lia|reflexivity]. }
  induction fuel as [|fuel IH]; intros w HN Hpin.
  - simpl. rewrite (bind_run _ _ _ _ _ _ (Ht w)).
    destruct (Z.gtb_spec (now_at env w) fullyDebouncedTime) as [Hgt|Hngt].
    + eexists. reflexivity.
    + exfalso. unfold now_at in Hngt.
      specialize (Hclock (millisReads w) ltac:(lia)). lia.
  - simpl. rewrite (bind_run _ _ _ _ _ _ (Ht w)).
    destruct (Z.gtb_spec (now_at env w) fullyDebouncedTime) as [Hgt|Hngt].
    + eexists. reflexivity.
    + set (w1 := with_millisReads (S (millisReads w)) w).
      rewrite (bind_run _ _ _ _ _ _ (digitalRead_run modePin env w1)).
      rewrite (Hpin (pinReads w1)) by (simpl; lia).
      change (HIGH =? HIGH) with true. cbv beta iota delta [negb].
      unfold ret at 1. unfold bind at 1.
      destruct (update_indicator_run false env
                  (with_pinReads (S (pinReads w1)) w1))
        as (w3 & E & (_ & _ & _ & _ & Hr) & _).
      pose proof (update_indicator_clock _ _ _ _ _ E) as Hc.
      rewrite (bind_run _ _ _ _ _ _ E). simpl in Hr, Hc |- *.
      apply IH.
      * lia.
      * intros n Hn. apply Hpin. lia.
Qed.

Lemma match_indicator_to_mode_run env w :
  exists w',
    match_indicator_to_mode env w = Some (tt, w') /\
    pinReads w' = pinReads w /\
    (millisReads w <= millisReads w' <= millisReads w + 3)%nat.
Proof.
  unfold match_indicator_to_mode. cbv beta iota delta [bind gets].
  destruct (currentMode w); cbv beta iota delta [modify];
    match goal with
    | |- context [update_indicator ?b env ?w2] =>
        destruct (update_indicator_run b env w2)
          as (w' & E & (_ & _ & _ & _ & Hr) & _);
        pose proof (update_indicator_clock _ _ _ _ _ E) as Hc;
        rewrite E
    end;
    exists w'; (split; [reflexivity|]); simpl in Hr, Hc; split; assumption.
Qed.

(** After a press the switch is held for [k] more readings and then found
    up: [await_release] returns, having taken the start of the guard
    window from one of the next [3 * k + 9] readings of the clock. *)
Lemma await_release_returns env w k fuel :
  (S k <= fuel)%nat ->
  (forall j, (j < k)%nat -> pin_at env modePin (pinReads w + j) = false) ->
  pin_at env modePin (pinReads w + k) = true ->
  exists i w',
    await_release fuel LOW env w
      = Some ((HIGH, wrap (millis_at env i),
               wrap (wrap (millis_at env i) + debouncePeriod)), w') /\
    (millisReads w <= i <= millisReads w + 3 * k + 8)%nat /\
    millisReads w' = S i /\
    pinReads w' = (pinReads w + k + 1)%nat.
Proof.
  intros Hfuel Hlow Hhigh.
  unfold await_release.
  rewrite (bind_run _ _ _ _ _ _ (increment_mode_run env w)).
  destruct (match_indicator_to_mode_run env
              (with_currentMode (spec_successor (currentMode w)) w))
    as (wb & Eb & Hrb & Hcb).
  rewrite (bind_run _ _ _ _ _ _ Eb). simpl in Hrb, Hcb.
  unfold mode_to_string, Serial_print, Serial_println, Serial_print_num,
    Serial_println_num, emit.
  cbv beta iota delta [bind gets modify ret].
  match goal with
  | |- context [match currentMode ?x with _ => _ end] =>
      destruct (currentMode x)
  end;
    rewrite my_millis_run; cbv beta iota;
    match goal with
    | |- context [wait_release _ LOW LOW _ ?wc] =>
        destruct (wait_release_returns env k wc) as (wd & Ed & Hrd & Hcd);
        [ intros j Hj; simpl; rewrite Hrb; apply Hlow; exact Hj
        | simpl; rewrite Hrb; exact Hhigh
        | rewrite (wait_release_fuel_mono LOW LOW _ _ _ _ _ Ed Hfuel);
          simpl in Hrd, Hcd ]
    end;
    cbv beta iota; rewrite !my_millis_run; cbv beta iota;
    eexists; eexists; (split; [unfold now_at; simpl; reflexivity|]);
    simpl; repeat split; lia.
Qed.

(** A clean press is debounced.  The switch is down at this reading, held
    for [k] more readings, and up from then on; from its [N]-th reading on
    the clock is more than the debounce period beyond every reading taken
    until the guard window opens.  Then, with enough fuel,
    [mode_change_check] returns, the mode advanced once. *)
Lemma mode_change_check_returns env w k N :
  pin_at env modePin (pinReads w) = false ->
  (forall j, (j < k)%nat -> pin_at env modePin (pinReads w + 1 + j) = false) ->
  (forall j, (k <= j)%nat -> pin_at env modePin (pinReads w + 1 + j) = true) ->
  (forall i n,
      (millisReads w <= i <= millisReads w + 3 * k + 8)%nat ->
      (N <= n)%nat ->
      wrap (millis_at env i) + debouncePeriod < wrap (millis_at env n)) ->
  exists w3,
    currentMode w3 = spec_successor (currentMode w) /\
    forall fuel,
      (S k <= fuel)%nat -> (N <= millisReads w + fuel)%nat ->
      mode_change_check fuel env w = Some (tt, w3).
Proof.
  intros Hpress Hlow Hhigh Hclock.
  set (w1 := with_pinReads (S (pinReads w)) w).
  destruct (await_release_returns env w1 k (S k) (le_n _)) as
    (i & w2 & Ea & Hi & Hm2 & Hp2).
  { intros j Hj. unfold w1.
    change (pinReads (with_pinReads (S (pinReads w)) w)) with (S (pinReads w)).
    replace (S (pinReads w) + j)%nat with (pinReads w + 1 + j)%nat by lia.
    apply Hlow. exact Hj. }
  { unfold w1.
    change (pinReads (with_pinReads (S (pinReads w)) w)) with (S (pinReads w)).
    replace (S (pinReads w) + k)%nat with (pinReads w + 1 + k)%nat by lia.
    apply Hhigh. apply le_n. }
  simpl in Hi, Hp2.
  pose proof (wrap_range (millis_at env i)) as Hri.
  pose proof (wrap_range (millis_at env N)) as HrN.
  pose proof (Hclock i N Hi (le_n _)) as HiN.
  assert (Hfully : wrap (wrap (millis_at env i) + debouncePeriod)
                   = wrap (millis_at env i) + debouncePeriod).
  { apply wrap_small. unfold debouncePeriod in *. ulong_lia. }
  assert (Hd1 : wrap (millis_at env i)
                <= wrap (wrap (millis_at env i) + debouncePeriod)).
  { rewrite Hfully. unfold debouncePeriod. lia. }
  assert (Hd2 : forall n, (N <= n)%nat ->
                  wrap (wrap (millis_at env i) + debouncePeriod)
                  < wrap (millis_at env n)).
  { intros n Hn. rewrite Hfully. apply Hclock; assumption. }
  assert (Hd3 : (N <= millisReads w2 + (N - millisReads w))%nat) by lia.
  assert (Hd4 : forall n, (pinReads w2 <= n)%nat -> pin_at env modePin n = true).
  { intros n Hn.
    replace n with (pinReads w + 1 + (n - pinReads w - 1))%nat by lia.
    apply Hhigh. lia. }
  destruct (debounce_wait_returns env N _ _ Hd1 Hd2 _ w2 Hd3 Hd4) as (w2' & Ed).
  set (w3 := with_millisReads (S (millisReads w2'))
               (with_trace
                  (PrintlnNum (now_at env w2')
                   :: Print "DEBUG: Finished Debounce at "
                   :: trace w2') w2')).
  assert (Hall : forall fuel,
             (S k <= fuel)%nat -> (N <= millisReads w + fuel)%nat ->
             mode_change_check fuel env w = Some (tt, w3)).
  { intros fuel Hk HN.
    assert (Hf : (N - millisReads w <= fuel)%nat) by lia.
    unfold mode_change_check.
    rewrite (bind_run _ _ _ _ _ _ (digitalRead_run modePin env w)).
    rewrite Hpress. change (LOW =? LOW) with true. cbv iota. fold w1.
    rewrite (bind_run _ _ _ _ _ _
               (await_release_fuel_mono LOW _ _ _ _ _ Ea Hk)).
    cbv beta iota delta [fst snd].
    rewrite (bind_run _ _ _ _ _ _
               (debounce_wait_fuel_mono _ _ _ _ _ _ _ _ Ed Hf)).
    unfold Serial_print, Serial_println_num, emit.
    cbv beta iota delta [bind modify]. rewrite my_millis_run. reflexivity. }
  exists w3. split; [|exact Hall].
  assert (E3 : mode_change_check (max (S k) N) env w = Some (tt, w3))
    by (apply Hall; lia).
  exact (proj1 (mode_change_check_pressed _ _ _ _ _ Hpress E3)).
Qed.

(* ================================================================== *)
(** ** The half-cycle runner *)

Lemma Mode_eqb_refl m : Mode_eqb m m = true.
Proof. destruct m; reflexivity. Qed.

Lemma Mode_eqb_successor m : Mode_eqb (spec_successor m) m = false.
Proof. destruct m; reflexivity. Qed.

Lemma poll_indicator_run env w :
  exists w2,
    poll_indicator env w = Some (tt, w2) /\
    currentMode w2 = currentMode w /\
    lastSeenMode w2 = Some (currentMode w) /\
    currentPowerState w2 = currentPowerState w /\
    currentIndicatorState w2 = currentIndicatorState w /\
    pinReads w2 = pinReads w.
Proof.
  set (b := negb (Mode_eqb (currentMode w)
                    match lastSeenMode w with
                    | Some m => m
                    | None => currentMode w
                    end)).
  destruct (update_indicator_run b env w) as (w' & E & (Hm & Hi & Hp & _ & Hr) & _).
  exists (with_lastSeenMode (Some (currentMode w')) w').
  split.
  - unfold poll_indicator, get_lastSeenMode.
    cbv beta iota delta [bind gets ret modify].
    destruct (lastSeenMode w); cbv beta iota; fold b; rewrite E; reflexivity.
  - simpl. rewrite Hm. repeat split; assumption.
Qed.

Lemma bail_on_mode_change_run env w :
  bail_on_mode_change env w =
  Some (if Mode_eqb (currentMode w)
             match lastSeenMode w with
             | Some m => m
             | None => currentMode w
             end
        then (false, w)
        else (true, bailed env w)).
Proof.
  unfold bail_on_mode_change, get_lastSeenMode, Serial_print,
    Serial_println_num, emit.
  cbv beta iota delta [bind gets ret modify].
  destruct (lastSeenMode w) as [l|].
  - destruct (Mode_eqb (currentMode w) l); [reflexivity|].
    cbv beta iota delta [negb]. rewrite my_millis_run. reflexivity.
  - rewrite Mode_eqb_refl. reflexivity.
Qed.


(** What a poll that returns has done: it leaves the loop exactly when the
    switch was down, which is exactly when the mode has changed. *)
Lemma half_cycle_body_spec fuel env w bail w' :
  half_cycle_body fuel env w = Some (bail, w') ->
  currentMode w' = (if bail then spec_successor (currentMode w)
                    else currentMode w) /\
  lastSeenMode w' = Some (currentMode w') /\
  currentPowerState w' = currentPowerState w.
Proof.
  intros H. unfold half_cycle_body in H.
  destruct (poll_indicator_run env w) as (w2 & E & Hm & Hl & Hp & _ & Hr).
  rewrite (bind_run _ _ _ _ _ _ E) in H.
  apply bind_Some in H. destruct H as ([] & w3 & Hmcc & H).
  rewrite bail_on_mode_change_run in H.
  destruct (pin_at env modePin (pinReads w2)) eqn:Hpin.
  - rewrite (mode_change_check_idle fuel env w2 Hpin) in Hmcc.
    inversion Hmcc; subst w3; clear Hmcc. simpl in H.
    rewrite Hl, Hm, Mode_eqb_refl in H. inversion H; subst. simpl.
    rewrite Hm. repeat split; assumption.
  - destruct (mode_change_check_pressed fuel env w2 tt w3 Hpin Hmcc)
      as (Hm3 & _ & Hl3 & Hp3).
    rewrite Hl3, Hl, Hm3, Hm, Mode_eqb_successor in H.
    inversion H; subst. simpl. rewrite Hm3, Hm. repeat split; congruence.
Qed.

(** A half cycle that returns has completed exactly when the mode is the
    one it started with; it never touches the power state. *)
Lemma half_cycle_loop_spec fuel next initialTime env w completed w' :
  half_cycle_loop fuel next initialTime env w = Some (completed, w') ->
  currentMode w' = (if completed then currentMode w
                    else spec_successor (currentMode w)) /\
  currentPowerState w' = currentPowerState w.
Proof.
  revert w. induction fuel as [|fuel IH]; intros w H; simpl in H;
    apply bind_Some in H; destruct H as (done & w1 & Ht & H);
    rewrite time_surpassed_run in Ht; inversion Ht; subst w1; clear Ht;
    destruct done; try discriminate H.
  - inversion H; subst. split; reflexivity.
  - inversion H; subst. split; reflexivity.
  - apply bind_Some in H. destruct H as (bail & w2 & Hb & H).
    apply half_cycle_body_spec in Hb. destruct Hb as (Hm & _ & Hp).
    simpl in Hm, Hp. destruct bail.
    + inversion H; subst. split; assumption.
    + apply IH in H. destruct H as (Hm' & Hp'). rewrite Hm', Hp', Hm.
      split; [reflexivity|assumption].
Qed.

Lemma half_cycle_begin_run period env w :
  exists locals w0,
    half_cycle_begin period env w = Some (locals, w0) /\
    currentMode w0 = currentMode w /\
    currentPowerState w0 = currentPowerState w /\
    currentIndicatorState w0 = currentIndicatorState w /\
    pin_writes (trace w0) = pin_writes (trace w).
Proof.
  unfold half_cycle_begin, init_lastSeenMode, next_switch_time, Serial_print,
    Serial_println, Serial_print_num, Serial_println_num, emit.
  cbv beta iota delta [bind gets ret modify].
  destruct (lastSeenMode w); cbv beta iota; rewrite my_millis_run;
    do 2 eexists; (split; [reflexivity|]); repeat split.
Qed.

(** A request for HIGH is honored in every mode and leaves the power
    state HIGH. *)
Lemma request_high_honored env w :
  exists w',
    request_power_state HIGH env w = Some (true, w') /\
    currentMode w' = currentMode w /\
    currentPowerState w' = HIGH.
Proof.
  rewrite request_power_state_run.
  destruct w as [m i p l st bl bs be mr pr tr]. step_prims. cbv zeta.
  change (HIGH =? HIGH) with true.
  destruct m; cbv iota; destruct (HIGH =? p) eqn:E;
    cbv beta iota delta [negb]; step_prims;
    eexists; (split; [reflexivity|]); split; try reflexivity.
  all: apply Z.eqb_eq in E; symmetry; exact E.
Qed.

Lemma on_phase_begin_run env w :
  exists wa,
    on_phase_begin env w = Some (tt, wa) /\
    currentMode wa = currentMode w /\
    currentPowerState wa = HIGH.
Proof.
  destruct (request_high_honored env w) as (w' & E & Hm & Hp).
  unfold on_phase_begin. rewrite (bind_run _ _ _ _ _ _ E).
  eexists. split; [reflexivity|]. split; assumption.
Qed.

Lemma run_half_cycle_spec fuel period env w completed w' :
  run_half_cycle fuel period env w = Some (completed, w') ->
  currentMode w' = (if completed then currentMode w
                    else spec_successor (currentMode w)) /\
  currentPowerState w' = currentPowerState w.
Proof.
  intros H. unfold run_half_cycle in H.
  destruct (half_cycle_begin_run period env w)
    as (locals & w0 & E & Hm & Hp & _).
  rewrite (bind_run _ _ _ _ _ _ E) in H.
  apply half_cycle_loop_spec in H. rewrite Hm, Hp in H. exact H.
Qed.










(* ================================================================== *)
(** ** Power in RUN mode *)

(** C4 (counterexample): setup() and one loop() in which the on-phase
    completes and the switch is pressed during the off-phase, in SCHEDULE
    mode.  loop() returns with the mode RUN and the power state LOW.  So it
    is not true that the power state is HIGH in every reachable state whose
    mode is RUN. *)
Lemma run_mode_reached_with_power_low :
  arduino_main 1 2 env_press_in_off_phase initial_world
    = Some (tt, world_run_low) /\
  currentMode world_run_low = RUN /\
  currentPowerState world_run_low = LOW /\
  ~ (forall n fuel env w,
       arduino_main n fuel env initial_world = Some (tt, w) ->
       currentMode w = RUN ->
       currentPowerState w = HIGH).
Proof.
  assert (E : arduino_main 1 2 env_press_in_off_phase initial_world
              = Some (tt, world_run_low)) by (vm_compute; reflexivity).
  split; [exact E|]. split; [reflexivity|]. split; [reflexivity|].
  intros claim.
  specialize (claim 1%nat 2%nat env_press_in_off_phase world_run_low E eq_refl).
  discriminate claim.
Qed.

(** C4 (amended): whenever currentMode is RUN, request_power_state returns
    with currentPowerState HIGH, whatever was requested; the half cycle that
    follows leaves the power state as it is, so HIGH; and a loop() entered
    in RUN mode returns with the power state HIGH.  The power state is
    changed by request_power_state alone: in the states reached after a
    mode change enters RUN during an off-phase it is still LOW until the
    next power request is made. *)
Theorem power_high_in_run_from_next_request env w req :
  currentMode w = RUN ->
  (exists honored w1,
     request_power_state req env w = Some (honored, w1) /\
     currentMode w1 = RUN /\
     currentPowerState w1 = HIGH /\
     forall fuel period completed w2,
       run_half_cycle fuel period env w1 = Some (completed, w2) ->
       currentPowerState w2 = HIGH) /\
  (forall fuel a w',
     loop fuel env w = Some (a, w') -> currentPowerState w' = HIGH).
Proof.
  intros Hrun. split.
  - pose proof (request_power_state_run env w req) as E. cbv zeta in E.
    rewrite Hrun in E.
    match type of E with _ = Some (?h, ?w1) => exists h, w1 end.
    split; [exact E|].
    clear E. destruct w as [m i p l st bl bs be mr pr tr]. simpl in Hrun.
    subst m.
    assert (Hp : forall fuel period completed w1 w2,
               currentPowerState w1 = HIGH ->
               run_half_cycle fuel period env w1 = Some (completed, w2) ->
               currentPowerState w2 = HIGH).
    { intros fuel period completed w1 w2 Hw1 H.
      apply run_half_cycle_spec in H. destruct H as (_ & H). congruence. }
    step_prims.
    destruct (negb (HIGH =? p)) eqn:E1, (req =? HIGH) eqn:E2; step_prims;
      (split; [reflexivity|]); (split; [try reflexivity|]).
    all: try (intros fuel period completed w2; apply Hp; reflexivity).
    all: try (apply negb_false_iff, Z.eqb_eq in E1; symmetry; exact E1).
    all: intros fuel period completed w2; apply Hp; simpl;
      apply negb_false_iff, Z.eqb_eq in E1; symmetry; exact E1.
  - intros fuel a w' H. unfold loop, on_phase in H.
    apply bind_Some in H. destruct H as (completed & w1 & Hon & H).
    apply bind_Some in Hon. destruct Hon as ([] & wa & Hbegin & Hhalf).
    destruct (on_phase_begin_run env w) as (wa' & E & Hma & Hpa).
    rewrite E in Hbegin. inversion Hbegin; subst wa'; clear Hbegin.
    apply run_half_cycle_spec in Hhalf. destruct Hhalf as (Hm1 & Hp1).
    cbv beta iota delta [bind gets] in H.
    destruct completed.
    + rewrite Hm1, Hma, Hrun in H. simpl in H. inversion H; subst.
      congruence.
    + simpl in H. inversion H; subst. congruence.
Qed.

Lemma power_high_in_run_from_next_request_witness :
  currentMode world_run_low = RUN /\
  forall fuel a w',
    loop fuel env_press_in_off_phase world_run_low = Some (a, w') ->
    currentPowerState w' = HIGH.
Proof.
  split; [reflexivity|].
  destruct (power_high_in_run_from_next_request env_press_in_off_phase
              world_run_low HIGH eq_refl) as (_ & Hloop).
  exact Hloop.
Defined.

(* ================================================================== *)
(** ** The guard window of the debouncer *)

(** What the code does inside the guard window, one poll at a time.  A
    reading of the switch that differs from [lastVal], the level seen at
    the release, restarts the guard from the clock reading taken then. *)
Lemma debounce_wait_restarts_on_other_level
      fuel lastVal initialTime fullyDebouncedTime env w w1 :
  time_surpassed fullyDebouncedTime initialTime env w = Some (false, w1) ->
  (if pin_at env modePin (pinReads w1) then HIGH else LOW) <> lastVal ->
  exists w3,
    same_control (with_pinReads (S (pinReads w1)) w1) w3 /\
    debounce_wait (S fuel) lastVal initialTime fullyDebouncedTime env w =
    debounce_wait fuel lastVal
      (now_at env w1) (wrap (now_at env w1 + debouncePeriod)) env w3.
Proof.
  intros Ht Hval.
  set (w2 := with_millisReads (S (millisReads w1))
               (with_pinReads (S (pinReads w1)) w1)).
  destruct (update_indicator_run false env w2) as (w3 & E & Hsame & _).
  exists w3. split; [exact Hsame|].
  simpl. rewrite (bind_run _ _ _ _ _ _ Ht). cbv iota.
  rewrite (bind_run _ _ _ _ _ _ (digitalRead_run modePin env w1)).
  apply Z.eqb_neq in Hval. rewrite Hval. cbv beta iota delta [negb].
  rewrite bind_assoc.
  rewrite (bind_run _ _ _ _ _ _ (my_millis_run env _)).
  unfold ret at 1. unfold bind at 1.
  change (update_indicator false env
            (with_millisReads (S (millisReads (with_pinReads (S (pinReads w1)) w1)))
               (with_pinReads (S (pinReads w1)) w1)))
    with (update_indicator false env w2).
  rewrite (bind_run _ _ _ _ _ _ E). reflexivity.
Qed.

(** A reading equal to [lastVal] leaves the guard as it is, whatever the
    reading before it was: [lastVal] is not updated inside the loop. *)
Lemma debounce_wait_continues_on_release_level
      fuel lastVal initialTime fullyDebouncedTime env w w1 :
  time_surpassed fullyDebouncedTime initialTime env w = Some (false, w1) ->
  (if pin_at env modePin (pinReads w1) then HIGH else LOW) = lastVal ->
  exists w3,
    same_control (with_pinReads (S (pinReads w1)) w1) w3 /\
    debounce_wait (S fuel) lastVal initialTime fullyDebouncedTime env w =
    debounce_wait fuel lastVal initialTime fullyDebouncedTime env w3.
Proof.
  intros Ht Hval.
  set (w2 := with_pinReads (S (pinReads w1)) w1).
  destruct (update_indicator_run false env w2) as (w3 & E & Hsame & _).
  exists w3. split; [exact Hsame|].
  simpl. rewrite (bind_run _ _ _ _ _ _ Ht). cbv iota.
  rewrite (bind_run _ _ _ _ _ _ (digitalRead_run modePin env w1)).
  apply Z.eqb_eq in Hval. rewrite Hval. cbv beta iota delta [negb].
  unfold ret at 1. unfold bind at 1. fold w2.
  rewrite (bind_run _ _ _ _ _ _ E). reflexivity.
Qed.

(** The mode is not advanced inside the guard window. *)
Lemma debounce_wait_keeps_mode
      fuel lastVal initialTime fullyDebouncedTime env w locals w' :
  debounce_wait fuel lastVal initialTime fullyDebouncedTime env w
    = Some (locals, w') ->
  currentMode w' = currentMode w.
Proof.
  apply (preserves_debounce_wait _ frame_keeps_currentMode).
Qed.

(** C5 (the code at the failing input): the switch is pressed, released,
    and bounces once inside the guard window.
    The release is seen at tick 960, so the guard is to last until 1010.
    First poll of the guard, tick 970: the switch reads LOW, unlike at the
    release; the guard restarts at tick 1000 and is to last until 1050.
    Second poll, tick 1040: the switch reads HIGH again.  This change of
    level does not restart the guard: the locals are still 1000 and 1050
    when the loop is left at the next reading of the clock, 1051, which is
    11 ticks after the change was seen.  mode_change_check returns at tick
    1052; the switch reads LOW at the next call, tick 1060, and the mode is
    advanced a second time, from RUN to REPEAT, fewer than 50 ticks after
    the last change of level. *)
Theorem guard_not_restarted_when_level_returns :
  (digitalRead modePin ;; await_release 1 LOW) env_bounce world_booted
    = Some ((HIGH, 960, 1010), world_guard_begins) /\
  debounce_wait 2 HIGH 960 1010 env_bounce world_guard_begins
    = Some ((1000, 1050), world_guard_ends) /\
  pinReads world_guard_ends = 4%nat /\
  option_map (fun r => (currentMode (snd r), printed_numbers (trace (snd r))))
    (mode_change_check 2 env_bounce world_booted)
    = Some (RUN, [900; 950; 960; 1010; 1052]) /\
  option_map (fun r => (currentMode (snd r), printed_numbers (trace (snd r))))
    ((mode_change_check 2 ;; mode_change_check 2) env_bounce world_booted)
    = Some (REPEAT, [900; 950; 960; 1010; 1052; 1060; 1061; 1062; 1112; 1121]).
Proof. vm_compute. repeat split. Qed.

(* ================================================================== *)
(** * Further properties of the sketch *)

(** ** The timer and the switch time *)

Lemma time_surpassed_exact_witness :
  time_surpassed (wrap (4294967290 + onPeriod)) 4294967290
    (env_clock_at 10) initial_world
  = Some (spec_passed 4294967290 onPeriod (now_at (env_clock_at 10) initial_world),
          with_millisReads 1 initial_world).
Proof.
  apply (time_surpassed_exact (env_clock_at 10) initial_world 4294967290 onPeriod).
  - split; [discriminate|reflexivity].
  - split; [discriminate|reflexivity].
  - intros [_ H]. vm_compute in H. discriminate H.
  - intros [H _]. vm_compute in H. discriminate H.
Defined.

(** X2: [next_switch_time] returns the wrapped sum and touches nothing but the
    log.  The sum is below the start exactly when it overflowed, which is
    the test [time_surpassed] applies to its two arguments; a sum that
    fits is returned as it is. *)
Theorem next_switch_time_below_start_iff_wrapped env w currTime holdTime :
  0 <= currTime < 2 ^ ULONG_WIDTH ->
  0 <= holdTime < 2 ^ ULONG_WIDTH ->
  next_switch_time currTime holdTime env w
    = Some (wrap (currTime + holdTime),
            with_trace
              (PrintlnNum (wrap (currTime + holdTime))
               :: Print "Time when power state is next changed: "
               :: trace w) w) /\
  (wrap (currTime + holdTime) <? currTime)
    = (2 ^ ULONG_WIDTH <=? currTime + holdTime) /\
  (currTime + holdTime < 2 ^ ULONG_WIDTH ->
   wrap (currTime + holdTime) = currTime + holdTime).
Proof.
  intros Hc Hh. split; [reflexivity|].
  destruct (Z_lt_le_dec (currTime + holdTime) (2 ^ ULONG_WIDTH)) as [Hs|Hw].
  - rewrite (wrap_small (currTime + holdTime)) by ulong_lia.
    split; [|intros _; reflexivity].
    destruct (Z.ltb_spec (currTime + holdTime) currTime),
             (Z.leb_spec (2 ^ ULONG_WIDTH) (currTime + holdTime));
      try reflexivity; ulong_lia.
  - rewrite (wrap_over (currTime + holdTime)) by ulong_lia.
    split; [|intros Hlt; ulong_lia].
    destruct (Z.ltb_spec (currTime + holdTime - 2 ^ ULONG_WIDTH) currTime),
             (Z.leb_spec (2 ^ ULONG_WIDTH) (currTime + holdTime));
      try reflexivity; ulong_lia.
Qed.

Lemma next_switch_time_below_start_iff_wrapped_witness :
  (wrap (4294967290 + onPeriod) <? 4294967290)
    = (2 ^ ULONG_WIDTH <=? 4294967290 + onPeriod) /\
  (wrap (100 + onPeriod) <? 100) = (2 ^ ULONG_WIDTH <=? 100 + onPeriod).
Proof.
  split.
  - apply (next_switch_time_below_start_iff_wrapped
             (env_clock_at 0) initial_world 4294967290 onPeriod);
      (split; [discriminate|reflexivity]).
  - apply (next_switch_time_below_start_iff_wrapped
             (env_clock_at 0) initial_world 100 onPeriod);
      (split; [discriminate|reflexivity]).
Defined.

(** ** The power controller *)

(** What a request does to the power state, the mode and the pins. *)
Lemma request_power_state_effect env w req :
  let newState := match currentMode w with RUN => HIGH | _ => req end in
  exists w',
    request_power_state req env w =
      Some (match currentMode w with RUN => req =? HIGH | _ => true end, w') /\
    currentMode w' = currentMode w /\
    currentPowerState w' = newState /\
    pin_writes (trace w') =
      if newState =? currentPowerState w
      then pin_writes (trace w)
      else (controlPin, newState) :: pin_writes (trace w).
Proof.
  rewrite request_power_state_run.
  destruct w as [m i p l st bl bs be mr pr tr]. step_prims. cbv zeta.
  eexists. split; [reflexivity|].
  destruct m; cbv iota.
  1, 2: destruct (req =? p) eqn:E; cbv beta iota delta [negb]; step_prims;
    cbn [pin_writes]; repeat split; apply Z.eqb_eq in E; congruence.
  destruct (HIGH =? p) eqn:E; destruct (req =? HIGH) eqn:E';
    cbv beta iota delta [negb]; step_prims;
    cbn [pin_writes]; repeat split; apply Z.eqb_eq in E; congruence.
Qed.

(** X3: The flag [request_power_state] returns says whether the power state
    now is the requested one, in every mode and for every requested value;
    the mode is left alone, and the control pin is written, with the new
    state, exactly when the power state has changed. *)
Theorem request_power_state_honored_iff_applied env w req :
  exists honored w',
    request_power_state req env w = Some (honored, w') /\
    (honored = true <-> currentPowerState w' = req) /\
    currentMode w' = currentMode w /\
    pin_writes (trace w') =
      if currentPowerState w' =? currentPowerState w
      then pin_writes (trace w)
      else (controlPin, currentPowerState w') :: pin_writes (trace w).
Proof.
  destruct (request_power_state_effect env w req) as (w' & E & Hm & Hp & Hw).
  cbv zeta in Hp, Hw. rewrite <- Hp in Hw.
  do 2 eexists. split; [exact E|]. split; [|split; assumption].
  rewrite Hp. destruct (currentMode w).
  1, 2: split; reflexivity.
  rewrite Z.eqb_eq. split; congruence.
Qed.

(** X4: Asking twice for the same state is asking once: the second request
    returns the same flag, leaves the power state where the first put it
    and writes no pin. *)
Theorem request_power_state_twice env w req :
  exists honored w1 w2,
    request_power_state req env w = Some (honored, w1) /\
    request_power_state req env w1 = Some (honored, w2) /\
    currentPowerState w2 = currentPowerState w1 /\
    pin_writes (trace w2) = pin_writes (trace w1).
Proof.
  destruct (request_power_state_effect env w req) as (w1 & E1 & Hm1 & Hp1 & _).
  destruct (request_power_state_effect env w1 req) as (w2 & E2 & _ & Hp2 & Hw2).
  cbv zeta in *. rewrite Hm1 in E2, Hp2, Hw2.
  rewrite Hp1, Z.eqb_refl in Hw2.
  exists (match currentMode w with RUN => req =? HIGH | _ => true end), w1, w2.
  repeat split; congruence.
Qed.

(* ================================================================== *)
(** ** Invariants of the running sketch *)

Lemma maintains_ret {A : Type} I (a : A) : maintains I (ret a).
Proof. intros env w a' w' HI H. inversion H; subst. exact HI. Qed.

Lemma maintains_gets {A : Type} I (f : World -> A) : maintains I (gets f).
Proof. intros env w a' w' HI H. inversion H; subst. exact HI. Qed.

Lemma maintains_out_of_fuel {A : Type} I : maintains I (@out_of_fuel A).
Proof. intros env w a' w' HI H. discriminate H. Qed.

Lemma maintains_bind {A B : Type} I (p : prog A) (k : A -> prog B) :
  maintains I p -> (forall a, maintains I (k a)) -> maintains I (bind p k).
Proof.
  intros Hp Hk env w b w'' HI H.
  apply bind_Some in H. destruct H as (a & w' & H1 & H2).
  eapply Hk; [|exact H2]. eapply Hp; eassumption.
Qed.

Lemma leads_bind {A B : Type} P Q (p : prog A) (k : A -> prog B) :
  leads P Q p -> (forall a, maintains Q (k a)) -> leads P Q (bind p k).
Proof.
  intros Hp Hk env w b w'' HP H.
  apply bind_Some in H. destruct H as (a & w' & H1 & H2).
  eapply Hk; [|exact H2]. eapply Hp; eassumption.
Qed.

Lemma maintains_modify I (f : World -> World) :
  (forall w, I w -> I (f w)) -> maintains I (modify f).
Proof. intros Hf env w a w' HI H. inversion H; subst. apply Hf, HI. Qed.

Lemma maintains_millis I :
  (forall n w, I w -> I (with_millisReads n w)) -> maintains I millis.
Proof. intros Hf env w a w' HI H. inversion H; subst. apply Hf, HI. Qed.

Lemma maintains_digitalRead I pin :
  (forall n w, I w -> I (with_pinReads n w)) -> maintains I (digitalRead pin).
Proof. intros Hf env w a w' HI H. inversion H; subst. apply Hf, HI. Qed.

(** Walk through a computation with an invariant; a step that changes the
    world leaves the invariant as it is, up to computation. *)
Ltac walk_step :=
  first
    [ assumption
    | match goal with H : context [maintains] |- maintains _ _ => apply H end
    | apply maintains_ret
    | apply maintains_gets
    | apply maintains_out_of_fuel
    | apply maintains_millis; let K := fresh in intros ? ? K; exact K
    | apply maintains_digitalRead; let K := fresh in intros ? ? K; exact K
    | apply maintains_modify; let K := fresh in intros ? K; exact K
    | apply maintains_bind; [| intros ? ]
    | match goal with
      | |- maintains _ (if ?c then _ else _) => destruct c
      | |- maintains _ (match ?m with _ => _ end) => destruct m
      end ].

Ltac walk :=
  unfold my_millis, time_surpassed, next_switch_time, mode_to_string,
    Serial_print, Serial_println, Serial_print_num, Serial_println_num,
    digitalWrite, pinMode, delay, Serial_begin, emit;
  repeat walk_step.

(** Carry the invariant [HI] of the start world along the run [H]. *)
Ltac walk_in H HI :=
  match type of H with
  | ?p ?env ?w = Some (?a, ?w') =>
      match type of HI with
      | ?I w =>
          let F := fresh "F" in
          assert (F : maintains I p) by walk;
          exact (F _ _ _ _ HI H)
      end
  end.

(** *** The LED *)

Lemma update_indicator_led modeChange env w a w' :
  update_indicator modeChange env w = Some (a, w') ->
  modeChange = true \/ led_shows_mode w ->
  led_shows_mode w'.
Proof.
  destruct w as [m i p l st bl bs be mr pr tr].
  unfold update_indicator, time_surpassed, led_shows_mode.
  destruct modeChange; [destruct m|]; step_prims; split_ifs;
    intros H; inversion H; subst; clear H; step_prims; cbn [last_write];
    rewrite ?Z.eqb_refl.
  all: intros [Hb|(Hw & Hm)]; try discriminate Hb;
    try (repeat split; auto; fail).
  all: destruct m; destruct Hm; try discriminate; repeat split; auto.
Qed.

(** After the mode has moved on from a world in which the indicator state
    agreed with it, [match_indicator_to_mode] brings the indicator state
    and the LED in line with the new mode. *)
Lemma match_indicator_after_increment env w a w' :
  indicator_matches w ->
  (increment_mode ;; match_indicator_to_mode) env w = Some (a, w') ->
  indicator_matches w' /\ led_shows_mode w'.
Proof.
  intros Hi H.
  rewrite (bind_run _ _ _ _ _ _ (increment_mode_run env w)) in H.
  split; [apply (match_indicator_to_mode_establishes _ _ _ _ H)|].
  unfold match_indicator_to_mode in H.
  apply bind_Some in H. destruct H as (i0 & w0 & H0 & H).
  inversion H0; subst i0 w0; clear H0.
  apply bind_Some in H. destruct H as (m & w1 & H1 & H).
  inversion H1; subst m w1; clear H1.
  apply bind_Some in H. destruct H as ([] & w2 & H2 & H).
  apply bind_Some in H. destruct H as (i1 & w3 & H3 & H).
  inversion H3; subst i1 w3; clear H3.
  apply (update_indicator_led _ _ _ _ _ H). left.
  unfold indicator_matches in Hi.
  destruct w as [m i p l st bl bs be mr pr tr].
  cbn [currentMode currentIndicatorState] in Hi. subst i.
  destruct m; inversion H2; subst w2; reflexivity.
Qed.

Lemma update_indicator_in_line modeChange :
  maintains indicator_in_line (update_indicator modeChange).
Proof.
  intros env w a w' [Hi Hl] H. split.
  - destruct (update_indicator_run modeChange env w) as (w2 & E & (Hm & Hc & _) & _).
    rewrite E in H. inversion H; subst w2.
    unfold indicator_matches. rewrite Hm, Hc. exact Hi.
  - apply (update_indicator_led _ _ _ _ _ H). right. exact Hl.
Qed.

Lemma wait_release_in_line fuel val lastVal :
  maintains indicator_in_line (wait_release fuel val lastVal).
Proof.
  pose proof update_indicator_in_line.
  revert val lastVal. induction fuel as [|fuel IH]; intros val lastVal;
    simpl; walk.
Qed.

Lemma debounce_wait_in_line fuel lastVal initialTime fullyDebouncedTime :
  maintains indicator_in_line
    (debounce_wait fuel lastVal initialTime fullyDebouncedTime).
Proof.
  pose proof update_indicator_in_line.
  revert initialTime fullyDebouncedTime.
  induction fuel as [|fuel IH]; intros initialTime fullyDebouncedTime;
    simpl; walk.
Qed.

Lemma await_release_in_line fuel val env w a w' :
  indicator_matches w ->
  await_release fuel val env w = Some (a, w') ->
  indicator_in_line w'.
Proof.
  intros Hi H. unfold await_release in H.
  apply bind_Some in H. destruct H as ([] & w1 & H1 & H).
  apply bind_Some in H. destruct H as ([] & w2 & H2 & H).
  assert (HI : indicator_in_line w2).
  { apply (match_indicator_after_increment env w tt w2 Hi).
    apply bind_Some. exists tt, w1. split; assumption. }
  pose proof wait_release_in_line.
  walk_in H HI.
Qed.

Lemma mode_change_check_in_line fuel :
  maintains indicator_in_line (mode_change_check fuel).
Proof.
  intros env w a w' HI H. unfold mode_change_check in H.
  rewrite (bind_run _ _ _ _ _ _ (digitalRead_run modePin env w)) in H.
  destruct (_ =? LOW); [|inversion H; subst; exact HI].
  apply bind_Some in H. destruct H as (locals & w1 & H1 & H).
  apply await_release_in_line in H1; [|exact (proj1 HI)].
  pose proof debounce_wait_in_line.
  walk_in H H1.
Qed.

Lemma half_cycle_body_in_line fuel : maintains indicator_in_line (half_cycle_body fuel).
Proof.
  pose proof update_indicator_in_line. pose proof mode_change_check_in_line.
  unfold half_cycle_body, poll_indicator, bail_on_mode_change,
    get_lastSeenMode.
  walk.
Qed.

Lemma run_half_cycle_in_line fuel period :
  maintains indicator_in_line (run_half_cycle fuel period).
Proof.
  pose proof half_cycle_body_in_line.
  assert (forall next initialTime,
             maintains indicator_in_line (half_cycle_loop fuel next initialTime))
    by (induction fuel as [|fuel IH]; intros next initialTime; simpl; walk).
  unfold run_half_cycle, half_cycle_begin, init_lastSeenMode. walk.
Qed.

Lemma request_power_state_in_line req :
  maintains indicator_in_line (request_power_state req).
Proof. unfold request_power_state. walk. Qed.

Lemma loop_in_line fuel : maintains indicator_in_line (loop fuel).
Proof.
  pose proof request_power_state_in_line. pose proof run_half_cycle_in_line.
  unfold loop, on_phase, on_phase_begin, off_phase. walk.
Qed.

Lemma setup_in_line : leads indicator_matches indicator_in_line setup.
Proof.
  intros env w a w' Hi H. split.
  - exact (preserves_setup _ frame_keeps_indicator_matches _ _ _ _ H Hi).
  - change (setup env w) with
      (update_indicator true env
         (with_trace
            (Delay 5000 :: SerialBegin 57600 :: DigitalWrite groundPin LOW
             :: PinMode modePin INPUT_PULLUP :: PinMode indicatorPin OUTPUT
             :: PinMode groundPin OUTPUT :: PinMode controlPin OUTPUT
             :: trace w) w)) in H.
    apply (update_indicator_led _ _ _ _ _ H). left. reflexivity.
Qed.

Lemma loops_in_line n fuel : maintains indicator_in_line (loops n fuel).
Proof.
  pose proof loop_in_line. induction n as [|n IH]; simpl; walk.
Qed.

Lemma arduino_main_in_line n fuel :
  leads indicator_matches indicator_in_line (arduino_main n fuel).
Proof.
  unfold arduino_main. apply leads_bind; [exact setup_in_line|].
  intros _. apply loops_in_line.
Qed.

(** X5: The LED shows the mode.  From a world in which the indicator state
    agrees with the mode, as it does at boot, [setup()] leaves the LED
    showing the mode, and so does every run of [setup()] followed by calls
    of [loop()]: the level last written to the indicator pin is LOW in
    REPEAT, HIGH in RUN, and in SCHEDULE it is the level of the running
    blink.  Once the LED shows the mode, [loop], [run_half_cycle],
    [mode_change_check], also when it changes the mode,
    [request_power_state] and [update_indicator] leave it so. *)
Theorem led_shows_mode_throughout env w :
  indicator_matches w ->
  (forall a w', setup env w = Some (a, w') -> led_shows_mode w') /\
  (forall n fuel a w',
      arduino_main n fuel env w = Some (a, w') -> led_shows_mode w') /\
  (led_shows_mode w ->
   (forall fuel a w', loop fuel env w = Some (a, w') -> led_shows_mode w') /\
   (forall fuel period c w',
       run_half_cycle fuel period env w = Some (c, w') -> led_shows_mode w') /\
   (forall fuel a w',
       mode_change_check fuel env w = Some (a, w') -> led_shows_mode w') /\
   (forall req h w',
       request_power_state req env w = Some (h, w') -> led_shows_mode w') /\
   (forall b a w',
       update_indicator b env w = Some (a, w') -> led_shows_mode w')).
Proof.
  intros Hi. split; [|split].
  - intros a w' H. exact (proj2 (setup_in_line _ _ _ _ Hi H)).
  - intros n fuel a w' H.
    exact (proj2 (arduino_main_in_line n fuel _ _ _ _ Hi H)).
  - intros Hl. assert (HI : indicator_in_line w) by (split; assumption).
    split; [|split; [|split; [|split]]]; intros.
    + eapply proj2, loop_in_line; eassumption.
    + eapply proj2, run_half_cycle_in_line; eassumption.
    + eapply proj2, mode_change_check_in_line; eassumption.
    + eapply proj2, request_power_state_in_line; eassumption.
    + eapply proj2, update_indicator_in_line; eassumption.
Qed.

Lemma led_shows_mode_throughout_witness :
  indicator_matches initial_world /\
  led_shows_mode world_booted /\ led_shows_mode world_run_low /\
  last_write indicatorPin (trace world_run_low) = Some HIGH.
Proof.
  assert (Hi : indicator_matches initial_world) by reflexivity.
  destruct (led_shows_mode_throughout env_press_at_first_poll initial_world Hi)
    as (Hsetup & _).
  destruct (led_shows_mode_throughout env_press_in_off_phase initial_world Hi)
    as (_ & Hmain & _).
  split; [exact Hi|]. split; [|split].
  - apply (Hsetup tt). vm_compute. reflexivity.
  - apply (Hmain 1%nat 2%nat tt). vm_compute. reflexivity.
  - vm_compute. reflexivity.
Defined.

(** *** The control pin *)

Lemma request_power_state_control req :
  maintains control_pin_follows (request_power_state req).
Proof.
  intros env w h w' HI H. rewrite request_power_state_run in H.
  cbv zeta in H. inversion H as [[Hh Hw]]. clear H Hh Hw.
  destruct w as [m i p l st bl bs be mr pr tr].
  unfold control_pin_follows in *. step_prims.
  destruct (negb (_ =? p)) eqn:E; step_prims.
  - destruct (match m with RUN => req =? HIGH | _ => true end);
      step_prims; cbn [last_write]; rewrite Z.eqb_refl; reflexivity.
  - apply Bool.negb_false_iff, Z.eqb_eq in E.
    destruct (match m with RUN => req =? HIGH | _ => true end);
      step_prims; cbn [last_write]; exact HI.
Qed.

Lemma update_indicator_control modeChange :
  maintains control_pin_follows (update_indicator modeChange).
Proof. unfold update_indicator. walk. Qed.

Lemma wait_release_control fuel val lastVal :
  maintains control_pin_follows (wait_release fuel val lastVal).
Proof.
  pose proof update_indicator_control.
  revert val lastVal. induction fuel as [|fuel IH]; intros val lastVal;
    simpl; walk.
Qed.

Lemma debounce_wait_control fuel lastVal initialTime fullyDebouncedTime :
  maintains control_pin_follows
    (debounce_wait fuel lastVal initialTime fullyDebouncedTime).
Proof.
  pose proof update_indicator_control.
  revert initialTime fullyDebouncedTime.
  induction fuel as [|fuel IH]; intros initialTime fullyDebouncedTime;
    simpl; walk.
Qed.

Lemma mode_change_check_control fuel :
  maintains control_pin_follows (mode_change_check fuel).
Proof.
  pose proof update_indicator_control.
  pose proof wait_release_control. pose proof debounce_wait_control.
  unfold mode_change_check, await_release, increment_mode,
    match_indicator_to_mode.
  walk.
Qed.

Lemma run_half_cycle_control fuel period :
  maintains control_pin_follows (run_half_cycle fuel period).
Proof.
  assert (Hb : forall f, maintains control_pin_follows (half_cycle_body f)).
  { pose proof update_indicator_control. pose proof mode_change_check_control.
    intros f. unfold half_cycle_body, poll_indicator, bail_on_mode_change,
      get_lastSeenMode. walk. }
  assert (forall next initialTime,
             maintains control_pin_follows
               (half_cycle_loop fuel next initialTime))
    by (induction fuel as [|f IH]; intros next initialTime; simpl; walk).
  unfold run_half_cycle, half_cycle_begin, init_lastSeenMode. walk.
Qed.

Lemma loop_control fuel : maintains control_pin_follows (loop fuel).
Proof.
  pose proof request_power_state_control. pose proof run_half_cycle_control.
  unfold loop, on_phase, on_phase_begin, off_phase. walk.
Qed.

Lemma setup_control : maintains control_pin_follows setup.
Proof. pose proof update_indicator_control. unfold setup. walk. Qed.

Lemma arduino_main_control n fuel :
  maintains control_pin_follows (arduino_main n fuel).
Proof.
  pose proof setup_control. pose proof loop_control.
  assert (maintains control_pin_follows (loops n fuel))
    by (induction n as [|n IH]; simpl; walk).
  unfold arduino_main. walk.
Qed.

(** X6: The control pin carries the power state.  At boot no level has been
    written to the control pin and the power state is LOW; from then on,
    when [setup], [loop], a run of [setup()] and calls of [loop()],
    [run_half_cycle], [mode_change_check] or [request_power_state]
    returns, the level last written to the control pin is
    [currentPowerState]. *)
Theorem control_pin_follows_power_state :
  control_pin_follows initial_world /\
  forall env w,
    control_pin_follows w ->
    (forall a w', setup env w = Some (a, w') -> control_pin_follows w') /\
    (forall fuel a w', loop fuel env w = Some (a, w') -> control_pin_follows w') /\
    (forall n fuel a w',
        arduino_main n fuel env w = Some (a, w') -> control_pin_follows w') /\
    (forall fuel period c w',
        run_half_cycle fuel period env w = Some (c, w') ->
        control_pin_follows w') /\
    (forall fuel a w',
        mode_change_check fuel env w = Some (a, w') -> control_pin_follows w') /\
    (forall req h w',
        request_power_state req env w = Some (h, w') -> control_pin_follows w').
Proof.
  split; [reflexivity|]. intros env w HI.
  split; [|split; [|split; [|split; [|split]]]]; intros.
  - eapply setup_control; eassumption.
  - eapply loop_control; eassumption.
  - eapply arduino_main_control; eassumption.
  - eapply run_half_cycle_control; eassumption.
  - eapply mode_change_check_control; eassumption.
  - eapply request_power_state_control; eassumption.
Qed.

Lemma control_pin_follows_power_state_witness :
  control_pin_follows initial_world /\
  control_pin_follows world_run_low /\
  last_write controlPin (trace world_run_low) = Some LOW.
Proof.
  destruct control_pin_follows_power_state as [H0 H].
  split; [exact H0|]. split; [|vm_compute; reflexivity].
  destruct (H env_press_in_off_phase initial_world H0) as (_ & _ & Hmain & _).
  apply (Hmain 1%nat 2%nat tt). vm_compute. reflexivity.
Defined.

(** *** The static of [run_half_cycle] *)

Lemma run_half_cycle_seen fuel period :
  maintains seen_mode_current (run_half_cycle fuel period).
Proof.
  assert (Hb : forall f, maintains seen_mode_current (half_cycle_body f)).
  { intros f env w bail w' _ Hbody.
    destruct (half_cycle_body_spec _ _ _ _ _ Hbody) as (_ & Hl & _).
    unfold seen_mode_current. rewrite Hl. reflexivity. }
  assert (forall next initialTime,
             maintains seen_mode_current
               (half_cycle_loop fuel next initialTime))
    by (induction fuel as [|f IH]; intros next initialTime; simpl; walk).
  assert (maintains seen_mode_current init_lastSeenMode).
  { intros env w a w' HI Hinit. unfold init_lastSeenMode in Hinit.
    cbv beta iota delta [bind gets] in Hinit. unfold seen_mode_current in *.
    destruct (lastSeenMode w) eqn:E; inversion Hinit; subst w'; simpl.
    - rewrite E. exact HI.
    - reflexivity. }
  unfold run_half_cycle, half_cycle_begin. walk.
Qed.

Lemma loop_seen fuel : maintains seen_mode_current (loop fuel).
Proof.
  pose proof run_half_cycle_seen.
  unfold loop, on_phase, on_phase_begin, off_phase, request_power_state.
  walk.
Qed.

Lemma arduino_main_seen n fuel :
  maintains seen_mode_current (arduino_main n fuel).
Proof.
  pose proof loop_seen.
  assert (maintains seen_mode_current (loops n fuel))
    by (induction n as [|n IH]; simpl; walk).
  unfold arduino_main, setup, update_indicator. walk.
Qed.

(** X7: A poll never reports a mode change to [update_indicator].  The static
    [lastSeenMode] of [run_half_cycle] is the current mode whenever a poll
    begins: that holds at boot, where the static is not yet initialised,
    and when a poll, [run_half_cycle], [loop] or a run of [setup()] and
    calls of [loop()] returns.  So the comparison of the two that a poll
    hands to [update_indicator] is always false, and the poll is
    [update_indicator(false)] followed by the assignment of the static. *)
Theorem poll_never_reports_mode_change env w :
  seen_mode_current w ->
  poll_indicator env w =
    (update_indicator false ;;
     m1 <- gets currentMode ;;
     modify (with_lastSeenMode (Some m1))) env w /\
  (forall fuel bail w',
      half_cycle_body fuel env w = Some (bail, w') -> seen_mode_current w') /\
  (forall fuel period c w',
      run_half_cycle fuel period env w = Some (c, w') -> seen_mode_current w') /\
  (forall fuel a w', loop fuel env w = Some (a, w') -> seen_mode_current w') /\
  (forall n fuel a w',
      arduino_main n fuel env w = Some (a, w') -> seen_mode_current w').
Proof.
  intros HI. split; [|split; [|split; [|split]]]; intros.
  - unfold poll_indicator, get_lastSeenMode, seen_mode_current in *.
    cbv beta iota delta [bind gets] in *.
    destruct (lastSeenMode w) as [m|]; [subst m|]; cbv beta iota delta [ret];
      rewrite Mode_eqb_refl; reflexivity.
  - destruct (half_cycle_body_spec _ _ _ _ _ H) as (_ & Hl & _).
    unfold seen_mode_current. rewrite Hl. reflexivity.
  - eapply run_half_cycle_seen; eassumption.
  - eapply loop_seen; eassumption.
  - eapply arduino_main_seen; eassumption.
Qed.

Lemma poll_never_reports_mode_change_witness :
  seen_mode_current initial_world /\ seen_mode_current world_run_low /\
  lastSeenMode world_run_low = Some RUN.
Proof.
  assert (H0 : seen_mode_current initial_world) by exact Logic.I.
  split; [exact H0|]. split; [|reflexivity].
  destruct (poll_never_reports_mode_change env_press_in_off_phase
              initial_world H0) as (_ & _ & _ & _ & Hmain).
  apply (Hmain 1%nat 2%nat tt). vm_compute. reflexivity.
Defined.

(* ================================================================== *)
(** ** When the loops end, and when they do not *)

(** A poll with the switch up goes through the body of the [while] without
    leaving it: it consumes one reading of the switch and at most three of
    the clock. *)
Lemma half_cycle_body_idle env w :
  pin_at env modePin (pinReads w) = true ->
  exists w',
    (forall fuel, half_cycle_body fuel env w = Some (false, w')) /\
    pinReads w' = S (pinReads w) /\
    (millisReads w <= millisReads w' <= millisReads w + 3)%nat /\
    currentMode w' = currentMode w /\
    currentPowerState w' = currentPowerState w.
Proof.
  intros Hpin.
  destruct (poll_indicator_run env w) as (w2 & E & Hm & Hl & Hp & _ & Hr).
  assert (Hc : (millisReads w <= millisReads w2 <= millisReads w + 3)%nat).
  { unfold poll_indicator in E. cbv beta iota delta [bind gets] in E.
    destruct (get_lastSeenMode env w) as [[l w0]|] eqn:El; [|discriminate E].
    assert (w0 = w).
    { unfold get_lastSeenMode in El. cbv beta iota delta [bind gets ret] in El.
      destruct (lastSeenMode w); inversion El; reflexivity. }
    subst w0.
    destruct (update_indicator _ env w) as [[[] w1]|] eqn:Eu; [|discriminate E].
    apply update_indicator_clock in Eu. inversion E; subst w2. exact Eu. }
  exists (with_pinReads (S (pinReads w2)) w2).
  rewrite <- Hr in Hpin.
  split; [|simpl; repeat split; try lia; congruence].
  intros fuel. unfold half_cycle_body.
  rewrite (bind_run _ _ _ _ _ _ E).
  rewrite (bind_run _ _ _ _ _ _ (mode_change_check_idle fuel env w2 Hpin)).
  rewrite bail_on_mode_change_run. simpl. rewrite Hl, Hm, Mode_eqb_refl.
  reflexivity.
Qed.

(** With the switch up, the [while] of [run_half_cycle] is left with true
    as soon as the clock reads beyond a target that has not wrapped. *)
Lemma half_cycle_loop_completes env N next initialTime :
  initialTime <= next ->
  (forall n, (N <= n)%nat -> next < wrap (millis_at env n)) ->
  forall fuel w,
    (N <= millisReads w + fuel)%nat ->
    (forall n, (pinReads w <= n)%nat -> pin_at env modePin n = true) ->
    exists w',
      half_cycle_loop fuel next initialTime env w = Some (true, w') /\
      currentMode w' = currentMode w /\
      currentPowerState w' = currentPowerState w /\
      (millisReads w < millisReads w' <= max (millisReads w) (N + 3) + 1)%nat /\
      (pinReads w <= pinReads w')%nat.
Proof.
  intros Hle Hclock.
  assert (Ht : forall w,
             time_surpassed next initialTime env w =
             Some (now_at env w >? next,
                   with_millisReads (S (millisReads w)) w)).
  { intros w. rewrite time_surpassed_run.
    destruct (Z.ltb_spec next initialTime); [lia|reflexivity]. }
  induction fuel as [|fuel IH]; intros w HN Hpin; simpl;
    rewrite (bind_run _ _ _ _ _ _ (Ht w));
    destruct (Z.gtb_spec (now_at env w) next) as [Hgt|Hngt];
    try (eexists; split; [reflexivity|]; simpl; repeat split; lia).
  - exfalso. unfold now_at in Hngt.
    specialize (Hclock (millisReads w) ltac:(lia)). lia.
  - assert (Hearly : (millisReads w < N)%nat).
    { destruct (Nat.lt_ge_cases (millisReads w) N) as [Hlt|Hge]; [exact Hlt|].
      exfalso. unfold now_at in Hngt. specialize (Hclock _ Hge). lia. }
    set (w1 := with_millisReads (S (millisReads w)) w).
    destruct (half_cycle_body_idle env w1) as (w2 & E & Hr & Hc & Hm & Hp).
    { apply Hpin. apply le_n. }
    rewrite (bind_run _ _ _ _ _ _ (E fuel)). simpl in Hr, Hc, Hm, Hp.
    destruct (IH w2) as (w' & E' & Hm' & Hp' & Hc' & Hr').
    + lia.
    + intros n Hn. apply Hpin. lia.
    + exists w'. split; [exact E'|]. repeat split; try congruence; lia.
Qed.

(** The locals a half cycle starts with: the clock reading and the switch
    time [period] ticks later. *)
Lemma half_cycle_begin_locals period env w :
  exists w0,
    half_cycle_begin period env w
      = Some ((wrap (now_at env w + period), now_at env w), w0) /\
    millisReads w0 = S (millisReads w) /\
    pinReads w0 = pinReads w /\
    currentMode w0 = currentMode w /\
    currentPowerState w0 = currentPowerState w.
Proof.
  destruct w as [m i p l st bl bs be mr pr tr].
  unfold half_cycle_begin, init_lastSeenMode, next_switch_time, Serial_print,
    Serial_println, Serial_print_num, Serial_println_num, emit.
  cbv beta iota delta [bind gets ret modify].
  destruct l; cbv beta iota delta [lastSeenMode]; rewrite my_millis_run;
    eexists; (split; [reflexivity|]); repeat split.
Qed.

(** X8: A half cycle that nothing interrupts completes.  The switch stays up;
    the switch time, [period] ticks after the clock reading the half cycle
    starts with, does not wrap; and from its [N]-th reading on the clock is
    beyond the switch time.  Then [run_half_cycle], with fuel for the
    readings up to the [N]-th, returns true, the mode and the power state
    as they were. *)
Theorem run_half_cycle_completes env w period N :
  0 <= period ->
  now_at env w + period < 2 ^ ULONG_WIDTH ->
  (forall n, (N <= n)%nat -> now_at env w + period < wrap (millis_at env n)) ->
  (forall n, (pinReads w <= n)%nat -> pin_at env modePin n = true) ->
  forall fuel,
    (N <= millisReads w + fuel)%nat ->
    exists w',
      run_half_cycle fuel period env w = Some (true, w') /\
      currentMode w' = currentMode w /\
      currentPowerState w' = currentPowerState w.
Proof.
  intros Hperiod Hnowrap Hclock Hpin fuel HN.
  pose proof (wrap_range (millis_at env (millisReads w))) as Hnow.
  fold (now_at env w) in Hnow.
  destruct (half_cycle_begin_locals period env w)
    as (w0 & E0 & Hc0 & Hr0 & Hm0 & Hp0).
  rewrite wrap_small in E0 by lia.
  assert (Hle : now_at env w <= now_at env w + period) by lia.
  assert (HN0 : (N <= millisReads w0 + fuel)%nat) by lia.
  rewrite <- Hr0 in Hpin.
  destruct (half_cycle_loop_completes env N _ _ Hle Hclock fuel w0 HN0 Hpin)
    as (w' & E & Hm & Hp & _).
  exists w'. unfold run_half_cycle. rewrite (bind_run _ _ _ _ _ _ E0).
  split; [exact E|]. split; congruence.
Qed.

Lemma run_half_cycle_completes_witness :
  exists w',
    run_half_cycle 5 onPeriod env_idle world_booted = Some (true, w') /\
    currentMode w' = SCHEDULE /\ currentPowerState w' = LOW.
Proof.
  apply (run_half_cycle_completes env_idle world_booted onPeriod 6).
  - discriminate.
  - reflexivity.
  - intros n Hn. change (now_at env_idle world_booted + onPeriod) with 50000.
    change (millis_at env_idle n) with (Z.min (10000 * Z.of_nat n) 1000000).
    rewrite wrap_small by ulong_lia. lia.
  - reflexivity.
  - vm_compute. lia.
Defined.

(** While the switch is down the first [while] of [mode_change_check]
    keeps polling it. *)
Lemma wait_release_stuck env fuel :
  forall w,
    (forall n, (pinReads w <= n)%nat -> pin_at env modePin n = false) ->
    wait_release fuel LOW LOW env w = None.
Proof.
  induction fuel as [|fuel IH]; intros w Hpin; [reflexivity|].
  change (wait_release (S fuel) LOW LOW env w)
    with ((v <- digitalRead modePin ;;
           update_indicator false ;;
           wait_release fuel v v) env w).
  rewrite (bind_run _ _ _ _ _ _ (digitalRead_run modePin env w)).
  rewrite (Hpin (pinReads w) (le_n _)).
  destruct (update_indicator_run false env (with_pinReads (S (pinReads w)) w))
    as (w1 & E & (_ & _ & _ & _ & Hr) & _).
  rewrite (bind_run _ _ _ _ _ _ E). apply IH.
  intros n Hn. apply Hpin. rewrite Hr in Hn. simpl in Hn. lia.
Qed.

(** X9: A switch that is held down holds the sketch.  When the switch is down
    at this reading and at every later one, [mode_change_check] does not
    return, whatever fuel it is given; nor does the poll it is part of, so
    the timer of the half cycle is not consulted and the power state is
    not switched while the switch is held. *)
Theorem held_switch_holds_the_sketch env w :
  (forall n, (pinReads w <= n)%nat -> pin_at env modePin n = false) ->
  forall fuel,
    mode_change_check fuel env w = None /\
    half_cycle_body fuel env w = None.
Proof.
  intros Hpin.
  assert (Hmcc : forall w0 fuel,
             pinReads w0 = pinReads w ->
             mode_change_check fuel env w0 = None).
  { intros w0 fuel Hr0. unfold mode_change_check.
    rewrite (bind_run _ _ _ _ _ _ (digitalRead_run modePin env w0)).
    rewrite (Hpin (pinReads w0)) by lia.
    change (LOW =? LOW) with true. cbv iota.
    assert (Ha : await_release fuel LOW env
                   (with_pinReads (S (pinReads w0)) w0) = None);
      [|unfold bind at 1; rewrite Ha; reflexivity].
    unfold await_release.
    rewrite (bind_run _ _ _ _ _ _ (increment_mode_run env _)).
    match goal with
    | |- bind match_indicator_to_mode _ env ?x = None =>
        destruct (match_indicator_to_mode_run env x) as (wb & Eb & Hrb & _)
    end.
    rewrite (bind_run _ _ _ _ _ _ Eb). simpl in Hrb.
    unfold mode_to_string, Serial_print, Serial_println, Serial_println_num,
      emit.
    cbv beta iota delta [bind gets modify ret].
    match goal with
    | |- context [match currentMode ?x with _ => _ end] =>
        destruct (currentMode x)
    end;
      rewrite my_millis_run; cbv beta iota;
      rewrite wait_release_stuck; try reflexivity;
      intros n Hn; apply Hpin; simpl in Hn; lia. }
  intros fuel. split; [apply Hmcc; reflexivity|].
  destruct (poll_indicator_run env w) as (w2 & E & _ & _ & _ & _ & Hr).
  unfold half_cycle_body. rewrite (bind_run _ _ _ _ _ _ E).
  unfold bind at 1. rewrite (Hmcc w2 fuel Hr). reflexivity.
Qed.

Lemma held_switch_holds_the_sketch_witness :
  mode_change_check 1000 env_switch_stuck world_booted = None /\
  half_cycle_body 1000 env_switch_stuck world_booted = None.
Proof.
  apply (held_switch_holds_the_sketch env_switch_stuck world_booted).
  intros n _. reflexivity.
Defined.

(** X10: A switch time on the last tick of the clock is never passed.  When
    the half cycle starts at a clock reading [period] ticks before tick
    [2 ^ 32 - 1] and the switch stays up, [run_half_cycle] does not
    return, whatever the clock reads afterwards and whatever fuel it is
    given: [time_surpassed] asks for a reading greater than the greatest
    one. *)
Theorem half_cycle_to_last_tick_never_completes env w period :
  now_at env w + period = 2 ^ ULONG_WIDTH - 1 ->
  0 <= period ->
  (forall n, (pinReads w <= n)%nat -> pin_at env modePin n = true) ->
  forall fuel, run_half_cycle fuel period env w = None.
Proof.
  intros Hlast Hperiod Hpin fuel.
  destruct (half_cycle_begin_locals period env w)
    as (w0 & E0 & _ & Hr0 & _).
  rewrite Hlast, wrap_small in E0 by ulong_lia.
  unfold run_half_cycle. rewrite (bind_run _ _ _ _ _ _ E0).
  cbv beta iota delta [fst snd].
  rewrite <- Hr0 in Hpin. clear E0 Hr0.
  assert (Ho : now_at env w <= 2 ^ ULONG_WIDTH - 1) by lia.
  revert w0 Hpin. induction fuel as [|fuel IH]; intros w0 Hpin; simpl;
    rewrite (bind_run _ _ _ _ _ _
               (time_surpassed_never_at_last_tick env w0 _ Ho));
    [reflexivity|].
  destruct (half_cycle_body_idle env (with_millisReads (S (millisReads w0)) w0))
    as (w2 & E & Hr & _).
  { apply Hpin. apply le_n. }
  rewrite (bind_run _ _ _ _ _ _ (E fuel)). apply IH.
  intros n Hn. apply Hpin. rewrite Hr in Hn. simpl in Hn. lia.
Qed.

Lemma half_cycle_to_last_tick_never_completes_witness :
  run_half_cycle 1000 onPeriod (env_clock_at 4294937295) world_booted = None.
Proof.
  apply (half_cycle_to_last_tick_never_completes
           (env_clock_at 4294937295) world_booted onPeriod).
  - reflexivity.
  - discriminate.
  - intros n _. reflexivity.
Defined.

(* ================================================================== *)
(** ** One call of [loop] *)

(** X11: What one call of [loop] can leave behind.  Either the mode is the one
    it was called with, and then the full cycle has run: in RUN the power
    state is HIGH, in the other modes it is LOW, the off half done.  Or the
    mode has advanced once, a press having cut a half cycle short: the
    power state is HIGH when that was the on half, and LOW when it was the
    off half, which is only run when the mode was not RUN. *)
Theorem loop_outcomes fuel env w w' :
  loop fuel env w = Some (tt, w') ->
  (currentMode w' = currentMode w /\
   currentPowerState w' = (if Mode_eqb (currentMode w) RUN then HIGH else LOW)) \/
  (currentMode w' = spec_successor (currentMode w) /\
   (currentPowerState w' = HIGH \/
    currentPowerState w' = LOW /\ currentMode w <> RUN)).
Proof.
  intros H. unfold loop, on_phase in H. rewrite bind_assoc in H.
  destruct (on_phase_begin_run env w) as (wa & Ea & Hma & Hpa).
  rewrite (bind_run _ _ _ _ _ _ Ea) in H.
  apply bind_Some in H. destruct H as (completed & w1 & Hon & H).
  apply run_half_cycle_spec in Hon. destruct Hon as (Hm1 & Hp1).
  rewrite Hma in Hm1. rewrite Hpa in Hp1.
  cbv beta iota delta [bind gets] in H.
  destruct completed; cbn [andb] in H.
  - rewrite Hm1 in H. destruct (Mode_eqb (currentMode w) RUN) eqn:Erun;
      cbn [negb] in H.
    + inversion H; subst w'. left. split; assumption.
    + unfold off_phase in H.
      destruct (request_power_state_effect env w1 LOW)
        as (w2 & E2 & Hm2 & Hp2 & _).
      cbv zeta in Hp2. rewrite Hm1 in E2, Hp2.
      assert (Hnot : currentMode w <> RUN)
        by (intros Hr; rewrite Hr in Erun; discriminate Erun).
      assert (Hlow : currentPowerState w2 = LOW)
        by (rewrite Hp2; destruct (currentMode w); congruence).
      rewrite (bind_run _ _ _ _ _ _ E2) in H.
      apply bind_Some in H. destruct H as ([] & w3 & H3 & H).
      pose proof H3 as H3'.
      frame_in H3 (keeps currentMode) frame_keeps_currentMode.
      frame_in H3' (keeps currentPowerState) frame_keeps_currentPowerState.
      unfold keeps in H3, H3'.
      apply bind_Some in H. destruct H as (c & w4 & Hoff & H).
      inversion H; subst w'; clear H.
      apply run_half_cycle_spec in Hoff. destruct Hoff as (Hm4 & Hp4).
      rewrite H3, Hm2, Hm1 in Hm4. rewrite H3', Hlow in Hp4.
      destruct c; [left|right]; (split; [exact Hm4|]).
      * exact Hp4.
      * right. split; assumption.
  - inversion H; subst w'. right. split; [exact Hm1|]. left. exact Hp1.
Qed.

Lemma loop_outcomes_witness :
  (currentMode world_cycle_done = currentMode world_booted /\
   currentPowerState world_cycle_done
   = (if Mode_eqb (currentMode world_booted) RUN then HIGH else LOW)) \/
  (currentMode world_cycle_done = spec_successor (currentMode world_booted) /\
   (currentPowerState world_cycle_done = HIGH \/
    currentPowerState world_cycle_done = LOW /\
    currentMode world_booted <> RUN)).
Proof.
  apply (loop_outcomes 30 env_idle world_booted world_cycle_done).
  vm_compute. reflexivity.
Defined.

(* ================================================================== *)
(** ** A press, from detection to the end of the guard window *)

Lemma mode_change_check_pressed_in_line fuel env w a w' :
  pin_at env modePin (pinReads w) = false ->
  indicator_matches w ->
  mode_change_check fuel env w = Some (a, w') ->
  led_shows_mode w'.
Proof.
  intros Hpin Hi H. unfold mode_change_check in H.
  rewrite (bind_run _ _ _ _ _ _ (digitalRead_run modePin env w)) in H.
  rewrite Hpin in H. change (LOW =? LOW) with true in H. cbv iota in H.
  apply bind_Some in H. destruct H as (locals & w1 & H1 & H).
  apply await_release_in_line in H1; [|exact Hi].
  pose proof debounce_wait_in_line.
  assert (HI : indicator_in_line w') by (walk_in H H1).
  exact (proj2 HI).
Qed.

(** X12: A clean press advances the mode once, and [mode_change_check]
    returns.  The switch is down at this reading, held for [k] more
    readings, and up from then on; from its [N]-th reading on the clock is
    more than the debounce period beyond every reading taken until the
    guard window opens.  Then [mode_change_check], with fuel for the [k]
    readings of the held switch and for the clock readings up to the
    [N]-th, returns, in one and the same world for every such fuel: the
    mode is the successor; the indicator state agrees with it; the power
    state and the static [lastSeenMode] are as they were; and when the
    indicator state agreed with the mode before, the LED shows the new
    mode. *)
Theorem clean_press_advances_mode_once env w k N :
  pin_at env modePin (pinReads w) = false ->
  (forall j, (j < k)%nat -> pin_at env modePin (pinReads w + 1 + j) = false) ->
  (forall j, (k <= j)%nat -> pin_at env modePin (pinReads w + 1 + j) = true) ->
  (forall i n,
      (millisReads w <= i <= millisReads w + 3 * k + 8)%nat ->
      (N <= n)%nat ->
      wrap (millis_at env i) + debouncePeriod < wrap (millis_at env n)) ->
  exists w3,
    (forall fuel,
        (S k <= fuel)%nat -> (N <= millisReads w + fuel)%nat ->
        mode_change_check fuel env w = Some (tt, w3)) /\
    currentMode w3 = spec_successor (currentMode w) /\
    indicator_matches w3 /\
    currentPowerState w3 = currentPowerState w /\
    lastSeenMode w3 = lastSeenMode w /\
    (indicator_matches w -> led_shows_mode w3).
Proof.
  intros Hpress Hlow Hhigh Hclock.
  destruct (mode_change_check_returns env w k N Hpress Hlow Hhigh Hclock)
    as (w3 & _ & Hret).
  assert (E : mode_change_check (max (S k) N) env w = Some (tt, w3))
    by (apply Hret; lia).
  destruct (mode_change_check_pressed _ _ _ _ _ Hpress E)
    as (Hm & Hi & Hl & Hp).
  exists w3. repeat (split; [assumption|]).
  intros Hi0. exact (mode_change_check_pressed_in_line _ _ _ _ _ Hpress Hi0 E).
Qed.

Lemma clean_press_advances_mode_once_witness :
  exists w3,
    (forall fuel,
        (1 <= fuel)%nat -> (20 <= millisReads world_booted + fuel)%nat ->
        mode_change_check fuel env_clean_press world_booted = Some (tt, w3)) /\
    currentMode w3 = spec_successor (currentMode world_booted) /\
    indicator_matches w3 /\
    currentPowerState w3 = currentPowerState world_booted /\
    lastSeenMode w3 = lastSeenMode world_booted /\
    (indicator_matches world_booted -> led_shows_mode w3).
Proof.
  apply (clean_press_advances_mode_once env_clean_press world_booted 0 20).
  - reflexivity.
  - intros j Hj. lia.
  - intros j _. change (pinReads world_booted) with 0%nat.
    unfold env_clean_press, pin_at. destruct (0 + 1 + j)%nat eqn:E; [lia|].
    reflexivity.
  - intros i n Hi Hn. change (millisReads world_booted) with 2%nat in Hi.
    unfold env_clean_press, millis_at, debouncePeriod.
    rewrite !wrap_small by ulong_lia. lia.
Defined.

(** X13: The guard window, when its [while] is left.  Entered with a target
    [debouncePeriod] ticks after its start, the loop returns locals that
    are still so related, whatever restarts took place; it has read the
    clock, and its last reading, the one it leaves on, is beyond the target
    and, when the target has wrapped, not beyond the start.  The mode and
    the power state are as they were. *)
Theorem debounce_wait_exit fuel lastVal env :
  forall initialTime fullyDebouncedTime w initialTime' fullyDebouncedTime' w',
    fullyDebouncedTime = wrap (initialTime + debouncePeriod) ->
    debounce_wait fuel lastVal initialTime fullyDebouncedTime env w
      = Some ((initialTime', fullyDebouncedTime'), w') ->
    fullyDebouncedTime' = wrap (initialTime' + debouncePeriod) /\
    (millisReads w < millisReads w')%nat /\
    fullyDebouncedTime' < wrap (millis_at env (pred (millisReads w'))) /\
    ~ (fullyDebouncedTime' < initialTime' /\
       initialTime' < wrap (millis_at env (pred (millisReads w')))) /\
    currentMode w' = currentMode w /\
    currentPowerState w' = currentPowerState w.
Proof.
  induction fuel as [|fuel IH]; intros i f w i' f' w' Hf H; simpl in H;
    rewrite (bind_run _ _ _ _ _ _ (time_surpassed_run f i env w)) in H;
    destruct (Z.ltb_spec f i) as [Hfi|Hfi];
    destruct (Z.gtb_spec (now_at env w) i) as [Hni|Hni];
    destruct (Z.gtb_spec (now_at env w) f) as [Hnf|Hnf];
    cbn [andb] in H; try discriminate H.
  all: try (inversion H; subst i' f' w'; clear H;
            cbn [millisReads with_millisReads pred currentMode
                 currentPowerState];
            fold (now_at env w);
            repeat split; try assumption; try lia).
  all: apply bind_Some in H; destruct H as (val & w1 & H1 & H);
    rewrite digitalRead_run in H1; inversion H1; subst val w1; clear H1;
    apply bind_Some in H; destruct H as (restart & w2 & H2 & H);
    apply bind_Some in H; destruct H as ([] & w3 & H3 & H);
    pose proof (update_indicator_clock _ _ _ _ _ H3) as Hc3;
    pose proof H3 as Hm3; pose proof H3 as Hp3;
    apply (preserves_update_indicator _ frame_keeps_currentMode) in Hm3;
    apply (preserves_update_indicator _ frame_keeps_currentPowerState) in Hp3;
    unfold keeps in Hm3, Hp3;
    assert (Hr : snd restart = wrap (fst restart + debouncePeriod) /\
                 (S (millisReads w) <= millisReads w2)%nat /\
                 currentMode w2 = currentMode w /\
                 currentPowerState w2 = currentPowerState w)
      by (destruct (negb _);
          [ rewrite (bind_run _ _ _ _ _ _ (my_millis_run env _)) in H2
          | ];
          inversion H2; subst restart w2; cbn; repeat split; try lia;
          assumption);
    destruct Hr as (Hr & Hc2 & Hm2 & Hp2);
    destruct (IH _ _ _ _ _ _ Hr H) as (Hf' & Hc' & Hlast & Hwrap & Hm' & Hp');
    repeat split; try assumption; try lia; congruence.
Qed.

Lemma debounce_wait_exit_witness :
  1050 = wrap (1000 + debouncePeriod) /\
  (millisReads world_guard_begins < millisReads world_guard_ends)%nat /\
  1050 < wrap (millis_at env_bounce (pred (millisReads world_guard_ends))) /\
  ~ (1050 < 1000 /\
     1000 < wrap (millis_at env_bounce (pred (millisReads world_guard_ends)))) /\
  currentMode world_guard_ends = currentMode world_guard_begins /\
  currentPowerState world_guard_ends = currentPowerState world_guard_begins.
Proof.
  apply (debounce_wait_exit 2 HIGH env_bounce 960 1010 world_guard_begins
           1000 1050 world_guard_ends); vm_compute; reflexivity.
Defined.

(* ================================================================== *)
(** ** The two versions of the sketch *)

Section Simulation.

Variables env1 env2 : Env.
Hypothesis Hin : same_inputs env1 env2.

Lemma sim_ret {A : Type} (a : A) : simulates env1 env2 (ret a) (ret a).
Proof. intros w1 w2 H. split; [reflexivity|exact H]. Qed.

Lemma sim_out_of_fuel {A : Type} : simulates env1 env2 (@out_of_fuel A) (@out_of_fuel A).
Proof. intros w1 w2 H. exact Logic.I. Qed.

Lemma sim_bind {A B : Type} (p1 p2 : prog A) (k1 k2 : A -> prog B) :
  simulates env1 env2 p1 p2 -> (forall a, simulates env1 env2 (k1 a) (k2 a)) -> simulates env1 env2 (bind p1 k1) (bind p2 k2).
Proof.
  intros Hp Hk w1 w2 H. specialize (Hp w1 w2 H). unfold bind.
  destruct (p1 env1 w1) as [[a1 w1']|], (p2 env2 w2) as [[a2 w2']|];
    try contradiction; [|exact Logic.I].
  destruct Hp as [-> Hag]. apply Hk, Hag.
Qed.

Lemma sim_gets {A : Type} (f : World -> A) :
  (forall w1 w2, agree w1 w2 -> f w1 = f w2) -> simulates env1 env2 (gets f) (gets f).
Proof. intros Hf w1 w2 H. split; [apply Hf, H|exact H]. Qed.

Lemma sim_modify (f1 f2 : World -> World) :
  (forall w1 w2, agree w1 w2 -> agree (f1 w1) (f2 w2)) ->
  simulates env1 env2 (modify f1) (modify f2).
Proof. intros Hf w1 w2 H. split; [reflexivity|apply Hf, H]. Qed.

Lemma sim_modify_left (f : World -> World) :
  (forall w1 w2, agree w1 w2 -> agree (f w1) w2) ->
  simulates env1 env2 (modify f) (ret tt).
Proof. intros Hf w1 w2 H. split; [reflexivity|apply Hf, H]. Qed.

Lemma sim_millis : simulates env1 env2 millis millis.
Proof.
  intros w1 w2 H. unfold millis. destruct Hin as [Hclock _].
  pose proof H as (Hm & Hi & Hp & Hl & Hs & Hb & Hbs & Hbe & Hmr & Hpr & Ht).
  rewrite Hclock, Hmr. split; [reflexivity|].
  unfold agree; cbn. repeat split; congruence.
Qed.

Lemma sim_digitalRead : simulates env1 env2 (digitalRead modePin) (digitalRead Part000.modePin).
Proof.
  intros w1 w2 H. unfold digitalRead. destruct Hin as [_ Hpin].
  pose proof H as (Hm & Hi & Hp & Hl & Hs & Hb & Hbs & Hbe & Hmr & Hpr & Ht).
  rewrite Hpin, Hpr. split; [reflexivity|].
  unfold agree; cbn. repeat split; congruence.
Qed.

End Simulation.

(** Run the two versions side by side. *)
Ltac agree_tac :=
  let H := fresh in
  intros ? ? H; unfold agree in *; cbn;
  decompose [and] H; repeat split; congruence.

Ltac sim_step Hin :=
  first
    [ assumption
    | match goal with H : context [simulates] |- simulates _ _ _ _ => apply H end
    | apply sim_ret
    | apply sim_out_of_fuel
    | apply (sim_millis _ _ Hin)
    | apply (sim_digitalRead _ _ Hin)
    | apply sim_gets; agree_tac
    | apply sim_modify; agree_tac
    | apply sim_modify_left; agree_tac
    | apply sim_bind; [| intros ? ]
    | match goal with
      | |- simulates _ _ (if ?c then _ else _) _ => destruct c
      | |- simulates _ _ (match ?m with _ => _ end) _ => destruct m
      end ].

Ltac sim_walk Hin :=
  unfold Part000.my_print, Part000.my_print_ulong, Part000.printDebug,
    Part000.next_switch_time, next_switch_time,
    my_millis, time_surpassed, mode_to_string,
    Serial_print, Serial_println, Serial_print_num, Serial_println_num,
    digitalWrite, pinMode, delay, Serial_begin, emit;
  cbn [negb orb];
  repeat sim_step Hin.

Section TwoVersions.

Variables env1 env2 : Env.
Hypothesis Hin : same_inputs env1 env2.

Lemma sim_update_indicator modeChange :
  simulates env1 env2 (update_indicator modeChange) (update_indicator modeChange).
Proof. unfold update_indicator. sim_walk Hin. Qed.

Lemma sim_match_indicator_to_mode :
  simulates env1 env2 match_indicator_to_mode match_indicator_to_mode.
Proof.
  pose proof sim_update_indicator. unfold match_indicator_to_mode.
  sim_walk Hin.
Qed.

Lemma sim_request_power_state req :
  simulates env1 env2 (request_power_state req) (Part000.request_power_state req).
Proof.
  unfold request_power_state, Part000.request_power_state. sim_walk Hin.
Qed.

Lemma sim_wait_release fuel val lastVal :
  simulates env1 env2 (wait_release fuel val lastVal)
    (Part000.wait_release fuel val lastVal).
Proof.
  pose proof sim_update_indicator.
  revert val lastVal. induction fuel as [|fuel IH]; intros val lastVal;
    simpl; sim_walk Hin.
Qed.

Lemma sim_debounce_wait fuel lastVal initialTime fullyDebouncedTime :
  simulates env1 env2
    (debounce_wait fuel lastVal initialTime fullyDebouncedTime)
    (Part000.debounce_wait fuel lastVal initialTime fullyDebouncedTime).
Proof.
  pose proof sim_update_indicator.
  revert initialTime fullyDebouncedTime.
  induction fuel as [|fuel IH]; intros initialTime fullyDebouncedTime;
    simpl; sim_walk Hin.
Qed.

Lemma sim_mode_change_check fuel :
  simulates env1 env2 (mode_change_check fuel) (Part000.mode_change_check fuel).
Proof.
  pose proof sim_match_indicator_to_mode.
  pose proof sim_wait_release. pose proof sim_debounce_wait.
  unfold mode_change_check, Part000.mode_change_check, await_release,
    Part000.await_release, increment_mode.
  sim_walk Hin.
Qed.

Lemma sim_half_cycle_body fuel :
  simulates env1 env2 (half_cycle_body fuel) (Part000.half_cycle_body fuel).
Proof.
  pose proof sim_update_indicator. pose proof sim_mode_change_check.
  unfold half_cycle_body, Part000.half_cycle_body, poll_indicator,
    bail_on_mode_change, Part000.bail_on_mode_change, get_lastSeenMode.
  sim_walk Hin.
Qed.

Lemma sim_half_cycle_loop fuel next initialTime :
  simulates env1 env2 (half_cycle_loop fuel next initialTime)
    (Part000.half_cycle_loop fuel next initialTime).
Proof.
  pose proof sim_half_cycle_body.
  induction fuel as [|fuel IH]; simpl; sim_walk Hin.
Qed.

Lemma sim_run_half_cycle fuel period :
  simulates env1 env2 (run_half_cycle fuel period)
    (Part000.run_half_cycle fuel period).
Proof.
  pose proof sim_half_cycle_loop.
  unfold run_half_cycle, Part000.run_half_cycle, half_cycle_begin,
    Part000.half_cycle_begin, init_lastSeenMode.
  sim_walk Hin.
Qed.

Lemma sim_loop fuel : simulates env1 env2 (loop fuel) (Part000.loop fuel).
Proof.
  pose proof sim_request_power_state. pose proof sim_run_half_cycle.
  unfold loop, Part000.loop, on_phase, Part000.on_phase, on_phase_begin,
    Part000.on_phase_begin, off_phase, Part000.off_phase.
  sim_walk Hin.
Qed.

Lemma sim_setup : simulates env1 env2 setup Part000.setup.
Proof.
  pose proof sim_update_indicator. unfold setup, Part000.setup.
  sim_walk Hin.
Qed.

Lemma sim_arduino_main n fuel :
  simulates env1 env2 (arduino_main n fuel) (Part000.arduino_main n fuel).
Proof.
  pose proof sim_setup. pose proof sim_loop.
  assert (simulates env1 env2 (loops n fuel) (Part000.loops n fuel))
    by (induction n as [|n IH]; simpl; sim_walk Hin).
  unfold arduino_main, Part000.arduino_main. sim_walk Hin.
Qed.

End TwoVersions.

(** X14: The second version of the sketch behaves as the first.  Let the second
    input show the same clock and, on pin 12, the switch that the first
    shows on pin 11.  Then each of [setup], [loop], a run of [setup()] and
    calls of [loop()], [run_half_cycle], [mode_change_check] and
    [request_power_state] of the second version does under the second
    input what its namesake of the first version does under the first:
    from worlds that agree both run out of fuel or both return, with the
    same result and in worlds that agree, that is, with the same globals
    and statics, as many readings of the clock and of the switch, and the
    same writes to the pins.  The worlds at boot agree. *)
Theorem part000_behaves_as_blinken env1 env2 :
  same_inputs env1 env2 ->
  agree initial_world initial_world /\
  simulates env1 env2 setup Part000.setup /\
  (forall fuel, simulates env1 env2 (loop fuel) (Part000.loop fuel)) /\
  (forall n fuel,
      simulates env1 env2 (arduino_main n fuel) (Part000.arduino_main n fuel)) /\
  (forall fuel period,
      simulates env1 env2 (run_half_cycle fuel period)
        (Part000.run_half_cycle fuel period)) /\
  (forall fuel,
      simulates env1 env2 (mode_change_check fuel)
        (Part000.mode_change_check fuel)) /\
  (forall req,
      simulates env1 env2 (request_power_state req)
        (Part000.request_power_state req)).
Proof.
  intros Hin. split; [repeat split|].
  split; [apply (sim_setup _ _ Hin)|].
  split; [intros; apply (sim_loop _ _ Hin)|].
  split; [intros; apply (sim_arduino_main _ _ Hin)|].
  split; [intros; apply (sim_run_half_cycle _ _ Hin)|].
  split; intros;
    [apply (sim_mode_change_check _ _ Hin)
    |apply (sim_request_power_state _ _ Hin)].
Qed.

Lemma part000_behaves_as_blinken_witness :
  same_inputs env_press_in_off_phase env_press_in_off_phase /\
  arduino_main 1 2 env_press_in_off_phase initial_world
    = Some (tt, world_run_low) /\
  Part000.arduino_main 1 2 env_press_in_off_phase initial_world
    = Some (tt, world_run_low_part000) /\
  agree world_run_low world_run_low_part000.
Proof.
  assert (Hin : same_inputs env_press_in_off_phase env_press_in_off_phase)
    by (split; reflexivity).
  assert (E1 : arduino_main 1 2 env_press_in_off_phase initial_world
               = Some (tt, world_run_low)) by (vm_compute; reflexivity).
  assert (E2 : Part000.arduino_main 1 2 env_press_in_off_phase initial_world
               = Some (tt, world_run_low_part000)) by (vm_compute; reflexivity).
  split; [exact Hin|]. split; [exact E1|]. split; [exact E2|].
  destruct (part000_behaves_as_blinken _ _ Hin) as (H0 & _ & _ & Hmain & _).
  specialize (Hmain 1%nat 2%nat initial_world initial_world H0).
  rewrite E1, E2 in Hmain. exact (proj2 Hmain).
Defined.

(* ================================================================== *)
(** ** A full cycle *)

(** Between two requests the level of the control pin stays. *)
Lemma run_half_cycle_control_level v fuel period :
  maintains (control_level v) (run_half_cycle fuel period).
Proof.
  assert (Hu : forall b, maintains (control_level v) (update_indicator b))
    by (intros b; unfold update_indicator; walk).
  assert (Hw : forall f val lastVal,
             maintains (control_level v) (wait_release f val lastVal))
    by (induction f as [|f IH]; intros val lastVal; simpl; walk).
  assert (Hd : forall f lastVal initialTime fullyDebouncedTime,
             maintains (control_level v)
               (debounce_wait f lastVal initialTime fullyDebouncedTime))
    by (induction f as [|f IH]; intros lastVal initialTime fullyDebouncedTime;
        simpl; walk).
  assert (Hb : forall f, maintains (control_level v) (half_cycle_body f)).
  { intros f. unfold half_cycle_body, poll_indicator, bail_on_mode_change,
      get_lastSeenMode, mode_change_check, await_release, increment_mode,
      match_indicator_to_mode. walk. }
  assert (forall next initialTime,
             maintains (control_level v)
               (half_cycle_loop fuel next initialTime))
    by (induction fuel as [|f IH]; intros next initialTime; simpl; walk).
  unfold run_half_cycle, half_cycle_begin, init_lastSeenMode. walk.
Qed.

(** A request reads the clock at most twice and does not read the switch;
    it leaves the power state on the control pin, provided the pin has
    been written before, which it has when the state is or was not LOW. *)
Lemma request_power_state_cursors env w req h w' :
  request_power_state req env w = Some (h, w') ->
  pinReads w' = pinReads w /\
  (millisReads w <= millisReads w' <= millisReads w + 2)%nat /\
  (control_pin_follows w ->
   currentPowerState w' <> LOW \/ currentPowerState w <> LOW ->
   control_level (currentPowerState w') w').
Proof.
  rewrite request_power_state_run. cbv zeta. intros H.
  inversion H as [[Hh Hw]]. clear H Hh Hw.
  destruct w as [m i p l st bl bs be mr pr tr].
  unfold control_level, control_pin_follows. step_prims.
  destruct (negb (_ =? p)) eqn:E; step_prims;
    destruct (match m with RUN => req =? HIGH | _ => true end);
    step_prims; cbn [last_write]; rewrite ?Z.eqb_refl;
    (split; [reflexivity|]); (split; [lia|]); intros HI Hnot;
    try (split; reflexivity).
  all: split; [|reflexivity].
  all: destruct (last_write controlPin tr); [congruence|];
    destruct Hnot as [Hnot|Hnot]; contradiction.
Qed.

(** X15: A full cycle.  In REPEAT and in SCHEDULE, with the switch up, the
    control pin following the power state, and a clock that from its
    [N1]-th reading on is beyond the end of the on half and from its
    [N2]-th reading on beyond the end of the off half, whichever of the
    readings in question these halves start with: the on half of [loop]
    completes with the control pin HIGH, and [loop] returns with the
    control pin LOW, the mode as it was. *)
Theorem loop_runs_full_cycle env w N1 N2 :
  currentMode w <> RUN ->
  control_pin_follows w ->
  (forall n, (pinReads w <= n)%nat -> pin_at env modePin n = true) ->
  (forall i n,
      (millisReads w <= i <= millisReads w + 2)%nat -> (N1 <= n)%nat ->
      wrap (millis_at env i) + onPeriod < wrap (millis_at env n)) ->
  (forall i n,
      (millisReads w <= i <= max (millisReads w + 3) (N1 + 3) + 3)%nat ->
      (N2 <= n)%nat ->
      wrap (millis_at env i) + offPeriod < wrap (millis_at env n)) ->
  forall fuel,
    (N1 <= millisReads w + fuel)%nat ->
    (N2 <= millisReads w + fuel)%nat ->
    exists w1 w',
      on_phase fuel env w = Some (true, w1) /\
      control_level HIGH w1 /\
      loop fuel env w = Some (tt, w') /\
      control_level LOW w' /\
      currentMode w' = currentMode w.
Proof.
  intros Hmode Hctl Hpin Hon Hoff fuel HN1 HN2.
  (* the request for HIGH *)
  destruct (request_high_honored env w) as (wa & Ea & Hma & Hpa).
  destruct (request_power_state_cursors _ _ _ _ _ Ea) as (Hra & Hca & Hla).
  assert (Hne : HIGH <> LOW) by discriminate.
  rewrite Hpa in Hla. specialize (Hla Hctl (or_introl Hne)).
  set (wb := with_trace
               (Println " seconds"
                :: PrintNum (wrap (onPeriod / 1000))
                :: Print "Starting On Cycle for " :: trace wa) wa).
  assert (Eb : on_phase_begin env w = Some (tt, wb)).
  { unfold on_phase_begin. rewrite (bind_run _ _ _ _ _ _ Ea). reflexivity. }
  (* the on half *)
  pose proof (wrap_range (millis_at env N1)) as HrN1.
  pose proof (wrap_range (millis_at env (millisReads wb))) as Hrb.
  assert (Hib : (millisReads w <= millisReads wb <= millisReads w + 2)%nat)
    by exact Hca.
  pose proof (Hon _ N1 Hib (le_n _)) as Hb1.
  destruct (half_cycle_begin_locals onPeriod env wb)
    as (w0 & E0 & Hc0 & Hr0 & Hm0 & Hp0).
  fold (now_at env wb) in Hrb, Hb1.
  rewrite wrap_small in E0 by (unfold onPeriod in *; lia).
  destruct (half_cycle_loop_completes env N1 (now_at env wb + onPeriod)
              (now_at env wb) ltac:(unfold onPeriod; lia)
              (fun n Hn => Hon _ n Hib Hn) fuel w0)
    as (w1 & E1 & Hm1 & Hp1 & Hc1 & Hr1).
  { lia. }
  { intros n Hn. apply Hpin. rewrite Hr0 in Hn. simpl in Hn. lia. }
  assert (Eon : run_half_cycle fuel onPeriod env wb = Some (true, w1)).
  { unfold run_half_cycle. rewrite (bind_run _ _ _ _ _ _ E0). exact E1. }
  assert (Hlb : control_level HIGH wb) by exact Hla.
  assert (Hl1 : control_level HIGH w1).
  { apply (run_half_cycle_control_level HIGH _ _ _ _ _ _ Hlb Eon). }
  assert (Eph : on_phase fuel env w = Some (true, w1)).
  { unfold on_phase. rewrite (bind_run _ _ _ _ _ _ Eb). exact Eon. }
  assert (Hmw1 : currentMode w1 = currentMode w).
  { rewrite Hm1, Hm0. exact Hma. }
  (* the request for LOW *)
  destruct (request_power_state_effect env w1 LOW)
    as (w2 & E2 & Hm2 & Hp2 & _).
  cbv zeta in Hp2. rewrite Hmw1 in E2, Hp2.
  assert (E2' : request_power_state LOW env w1 = Some (true, w2))
    by (rewrite E2; destruct (currentMode w); congruence).
  assert (Hp2' : currentPowerState w2 = LOW)
    by (rewrite Hp2; destruct (currentMode w); congruence).
  clear E2 Hp2.
  destruct (request_power_state_cursors _ _ _ _ _ E2') as (Hr2 & Hc2 & Hl2).
  rewrite Hp2' in Hl2.
  assert (Hctl1 : control_pin_follows w1).
  { destruct Hl1 as [Hw1 Hq1]. unfold control_pin_follows. rewrite Hw1.
    symmetry. exact Hq1. }
  assert (Hne1 : currentPowerState w1 <> LOW)
    by (rewrite (proj2 Hl1); exact Hne).
  specialize (Hl2 Hctl1 (or_intror Hne1)).
  set (wc := with_trace
               (Println " seconds"
                :: PrintNum (wrap (offPeriod / 1000))
                :: Print "Starting Off Cycle for " :: trace w2) w2).
  assert (Hlc : control_level LOW wc) by exact Hl2.
  (* the off half *)
  assert (Hic : (millisReads w <= millisReads wc
                 <= max (millisReads w + 3) (N1 + 3) + 3)%nat).
  { change (millisReads wc) with (millisReads w2).
    change (millisReads wb) with (millisReads wa) in Hc0. lia. }
  pose proof (wrap_range (millis_at env N2)) as HrN2.
  pose proof (wrap_range (millis_at env (millisReads wc))) as Hrc.
  pose proof (Hoff _ N2 Hic (le_n _)) as Hc1'.
  destruct (half_cycle_begin_locals offPeriod env wc)
    as (w3 & E3 & Hc3 & Hr3 & Hm3 & Hp3).
  fold (now_at env wc) in Hrc, Hc1'.
  rewrite wrap_small in E3 by (unfold offPeriod in *; lia).
  destruct (half_cycle_loop_completes env N2 (now_at env wc + offPeriod)
              (now_at env wc) ltac:(unfold offPeriod; lia)
              (fun n Hn => Hoff _ n Hic Hn) fuel w3)
    as (w4 & E4 & Hm4 & Hp4 & _).
  { lia. }
  { intros n Hn. apply Hpin. rewrite Hr3 in Hn.
    change (pinReads wc) with (pinReads w2) in Hn.
    change (pinReads wb) with (pinReads wa) in Hr0. lia. }
  assert (Eoff : run_half_cycle fuel offPeriod env wc = Some (true, w4)).
  { unfold run_half_cycle. rewrite (bind_run _ _ _ _ _ _ E3). exact E4. }
  exists w1, w4.
  split; [exact Eph|]. split; [exact Hl1|].
  split; [|split].
  - unfold loop. rewrite (bind_run _ _ _ _ _ _ Eph).
    cbv beta iota delta [bind gets]. rewrite Hmw1.
    assert (Hrun : Mode_eqb (currentMode w) RUN = false)
      by (destruct (currentMode w); try reflexivity; contradiction).
    rewrite Hrun. cbn [andb negb]. unfold off_phase.
    rewrite (bind_run _ _ _ _ _ _ E2').
    cbv iota.
    assert (Epr : (Serial_print "Starting Off Cycle for " ;;
                   Serial_print_num (wrap (offPeriod / 1000)) ;;
                   Serial_println " seconds") env w2 = Some (tt, wc))
      by reflexivity.
    rewrite (bind_run _ _ _ _ _ _ Epr).
    rewrite (bind_run _ _ _ _ _ _ Eoff). reflexivity.
  - apply (run_half_cycle_control_level LOW _ _ _ _ _ _ Hlc Eoff).
  - rewrite Hm4, Hm3. change (currentMode wc) with (currentMode w2).
    rewrite Hm2. exact Hmw1.
Qed.

Lemma loop_runs_full_cycle_witness :
  exists w1 w',
    on_phase 30 env_idle world_booted = Some (true, w1) /\
    control_level HIGH w1 /\
    loop 30 env_idle world_booted = Some (tt, w') /\
    control_level LOW w' /\
    currentMode w' = currentMode world_booted.
Proof.
  apply (loop_runs_full_cycle env_idle world_booted 8 17).
  - discriminate.
  - reflexivity.
  - intros n _. reflexivity.
  - intros i n Hi Hn. change (millisReads world_booted) with 2%nat in Hi.
    unfold env_idle, millis_at, onPeriod.
    rewrite !wrap_small by ulong_lia. lia.
  - intros i n Hi Hn. change (millisReads world_booted) with 2%nat in Hi.
    unfold env_idle, millis_at, offPeriod.
    rewrite !wrap_small by ulong_lia. lia.
  - vm_compute. lia.
  - vm_compute. lia.
Defined.

(* ================================================================== *)
(** ** The blink *)

(** X16: What a poll does to the LED.  Called with false in a world in which
    the LED shows the mode, [update_indicator] either writes no pin and
    leaves the level and the blink timer as they are, or, and this only in
    SCHEDULE, it writes the indicator pin once, with the opposite level,
    and sets the blink timer to run from the clock reading it has just
    taken for the period of the new level.  Outside SCHEDULE it reads no
    clock and returns in the world it was called in. *)
Theorem poll_flips_or_leaves_led env w w' :
  led_shows_mode w ->
  update_indicator false env w = Some (tt, w') ->
  (currentMode w <> SCHEDULE -> w' = w) /\
  ((pin_writes (trace w') = pin_writes (trace w) /\
    indicatorState w' = indicatorState w /\
    blinkStart w' = blinkStart w /\ blinkEnd w' = blinkEnd w) \/
   (currentMode w = SCHEDULE /\
    pin_writes (trace w')
    = (indicatorPin, indicatorState w') :: pin_writes (trace w) /\
    indicatorState w' = HIGH + LOW - indicatorState w /\
    blinkStart w' = wrap (millis_at env (pred (millisReads w'))) /\
    blinkEnd w'
    = wrap (blinkStart w'
            + (if indicatorState w' =? HIGH then blinkOnPeriod
               else blinkOffPeriod)))).
Proof.
  destruct w as [m i p l st bl bs be mr pr tr].
  unfold update_indicator, time_surpassed, led_shows_mode.
  step_prims. intros [Hw Hm].
  destruct m; destruct Hm as [Hm1 Hm2]; subst; step_prims.
  1, 3: intros H; inversion H; subst w'; clear H;
    (split; [reflexivity|left; repeat split]).
  split_ifs; intros H; inversion H; subst w'; clear H; step_prims;
    (split; [intros Hne; contradiction Hne; reflexivity|]);
    try (left; repeat split; fail).
  all: right; cbn [pin_writes pred]; unfold millisOffset;
    rewrite ?Z.add_0_r, ?wrap_idem.
  all: match goal with
       | H : (_ =? HIGH) = true |- _ => apply Z.eqb_eq in H; subst st
       | H : (_ =? HIGH) = false |- _ =>
           apply Z.eqb_neq in H; destruct Hm2 as [->| ->]; [|contradiction]
       end.
  all: repeat split.
Qed.

Lemma poll_flips_or_leaves_led_witness :
  led_shows_mode world_booted /\
  indicatorState world_booted = HIGH /\
  indicatorState world_blinked = LOW /\
  pin_writes (trace world_blinked)
  = (indicatorPin, LOW) :: pin_writes (trace world_booted) /\
  blinkEnd world_blinked = 6000.
Proof.
  assert (Hl : led_shows_mode world_booted) by (vm_compute; repeat split; auto).
  split; [exact Hl|]. split; [reflexivity|].
  destruct (poll_flips_or_leaves_led (env_clock_at 5000) world_booted
              world_blinked Hl eq_refl) as (_ & [(Hsame & _)|(_ & Hw & Hs & _ & He)]).
  - vm_compute in Hsame. discriminate Hsame.
  - split; [rewrite Hs; reflexivity|]. split; [rewrite Hw; reflexivity|].
    rewrite He. reflexivity.
Defined.
